(** * Durable Streams: cursor engine, client error mapping, client response
      stream and the Go chunk iterator

    A shallow embedding of

    - [packages/server/src/cursor.ts]   (interval cursor with collision jitter),
    - [packages/client/src/utils.ts]    ([handleErrorResponse]),
    - [packages/client/src/response.ts] ([StreamResponseImpl]'s response stream),
    - the Go client's [ChunkIterator]   ([Next] and [Close]),

    followed by the properties proved about them.

    Conventions.  Reads of the environment (the clock [Date.now()], the draw
    [Math.random()], the answer of an HTTP request) are explicit arguments of
    the embedded functions.  JavaScript numbers that the code keeps integral
    (millisecond timestamps, interval lengths in seconds, interval counts) are
    integers of [Z]; on such values, below 2^53, IEEE double arithmetic and the
    exact arithmetic used here agree.  The draw of [Math.random()] is a
    rational. *)

From Stdlib Require Import ZArith QArith Qround String Ascii Lia List.
From Stdlib Require Import DecimalString DecimalPos DecimalZ.
From stdpp Require Import base option gmap strings.
Import ListNotations.

Local Open Scope string_scope.
Local Open Scope Z_scope.

(* ===================================================================== *)
(** * Part I: the embedding                                               *)
(* ===================================================================== *)

(** ** JavaScript values used by the cursor engine *)

Module JS.

(** A JavaScript number holding an integer, or one of the three
    non-finite values that integer division and [parseInt] produce. *)
Inductive number : Type :=
| Int (z : Z)
| NaN
| Infinity
| NegInfinity.

(** [a + b] *)
Definition add (a b : number) : number :=
  match a, b with
  | NaN, _ | _, NaN => NaN
  | Int x, Int y => Int (x + y)
  | Infinity, NegInfinity | NegInfinity, Infinity => NaN
  | Infinity, _ | _, Infinity => Infinity
  | NegInfinity, _ | _, NegInfinity => NegInfinity
  end.

(** The value of [a / b] on integers when [b] is zero. *)
Definition div_by_zero (a : Z) : number :=
  if a =? 0 then NaN else if 0 <? a then Infinity else NegInfinity.

(** [Math.floor(a / b)] on integers [a], [b]. *)
Definition Math_floor_div (a b : Z) : number :=
  if b =? 0 then div_by_zero a else Int (a / b).

(** [Math.ceil(a / b)] on integers [a], [b]. *)
Definition Math_ceil_div (a b : Z) : number :=
  if b =? 0 then div_by_zero a else Int (- ((- a) / b)).

(** [String(n)]: the decimal rendering, a leading [-] for negatives. *)
Definition String_ (n : number) : string :=
  match n with
  | Int z => NilZero.string_of_int (Z.to_int z)
  | NaN => "NaN"
  | Infinity => "Infinity"
  | NegInfinity => "-Infinity"
  end.

(** White space skipped by [parseInt] (the ASCII part of it). *)
Definition is_white_space (c : ascii) : bool :=
  let n := N_of_ascii c in
  ((9 <=? n) && (n <=? 13))%N || (n =? 32)%N.

(** [s] without its leading white space. *)
Fixpoint trim_start (s : string) : string :=
  match s with
  | String c s' => if is_white_space c then trim_start s' else s
  | EmptyString => s
  end.

(** The longest prefix of decimal digits of [s], as a decimal numeral. *)
Fixpoint digit_prefix (s : string) : Decimal.uint :=
  match s with
  | EmptyString => Decimal.Nil
  | String c s' =>
      match uint_of_char c (Some (digit_prefix s')) with
      | Some d => d
      | None => Decimal.Nil
      end
  end.

(** The signed value of the digits that start [s]; [NaN] without a digit. *)
Definition digits_value (sign : Z) (s : string) : number :=
  match digit_prefix s with
  | Decimal.Nil => NaN
  | d => Int (sign * Z.of_N (N.of_uint d))
  end.

(** [parseInt(s, 10)]: skip white space, read an optional sign, then the
    longest run of digits; [NaN] when there is no digit. *)
Definition parseInt (s : string) : number :=
  match trim_start s with
  | String "-" s' => digits_value (-1) s'
  | String "+" s' => digits_value 1 s'
  | s' => digits_value 1 s'
  end.

(** A [Date]: its time value, milliseconds since 1970-01-01T00:00:00Z. *)
Record Date : Type := mkDate { getTime : Z }.

(** Days from 1970-01-01 to the civil date [y]-[m]-[d], [m] in 1..12. *)
Definition days_from_civil (y m d : Z) : Z :=
  let y' := if m <=? 2 then y - 1 else y in
  let era := y' / 400 in
  let yoe := y' - era * 400 in
  let mp := (m + 9) mod 12 in
  let doy := (153 * mp + 2) / 5 + d - 1 in
  let doe := yoe * 365 + yoe / 4 - yoe / 100 + doy in
  era * 146097 + doe - 719468.

(** [new Date(Date.UTC(year, monthIndex, day, h, mi, s, ms))], the month
    index counted from 0. *)
Definition Date_UTC (year monthIndex day h mi s ms : Z) : Date :=
  mkDate ((((days_from_civil year (monthIndex + 1) day * 24 + h) * 60 + mi)
             * 60 + s) * 1000 + ms).

End JS.

(** ** [packages/server/src/cursor.ts] *)

Module Cursor.
Import JS.

(** [new Date(`2025-12-19T00:00:00.000Z`)] *)
Definition DEFAULT_CURSOR_EPOCH : Date := Date_UTC 2025 11 19 0 0 0 0.

Definition DEFAULT_CURSOR_INTERVAL_SECONDS : Z := 20.

Definition MAX_JITTER_SECONDS : Z := 3600.

Definition MIN_JITTER_SECONDS : Z := 1.

(** Both fields are optional; [None] is an omitted field. *)
Record CursorOptions : Type := mkCursorOptions {
  intervalSeconds : option Z;
  epoch : option Date
}.

(** [options = {}] *)
Definition no_options : CursorOptions := mkCursorOptions None None.

(** [calculateCursor(options)], the clock read [Date.now()] being [now]. *)
Definition calculateCursor (now : Z) (options : CursorOptions) : string :=
  let intervalSeconds :=
    default DEFAULT_CURSOR_INTERVAL_SECONDS (intervalSeconds options) in
  let epoch := default DEFAULT_CURSOR_EPOCH (epoch options) in
  let epochMs := getTime epoch in
  let intervalMs := intervalSeconds * 1000 in
  let intervalNumber := Math_floor_div (now - epochMs) intervalMs in
  String_ intervalNumber.

(** [MIN_JITTER_SECONDS +
     Math.floor(Math.random() * (MAX_JITTER_SECONDS - MIN_JITTER_SECONDS + 1))],
    the draw [Math.random()] being [random].  The product is taken exactly;
    the code takes it in doubles, where a product within one rounding below
    an integer becomes that integer and the jitter is one more than here.
    The range of the jitter, 1 to 3600, is the same in both. *)
Definition jitterSeconds (random : Q) : Z :=
  MIN_JITTER_SECONDS +
  Qfloor (random * inject_Z (MAX_JITTER_SECONDS - MIN_JITTER_SECONDS + 1)).

(** [!previousCursor]: the argument is [undefined] or the empty string. *)
Definition falsy (previousCursor : option string) : bool :=
  match previousCursor with
  | None => true
  | Some p => String.eqb p ""
  end.

(** [currentCursor !== previousCursor] *)
Definition differs (currentCursor : string) (previousCursor : option string) : bool :=
  match previousCursor with
  | None => true
  | Some p => negb (String.eqb currentCursor p)
  end.

(** [handleCursorCollision(currentCursor, previousCursor, options)]; the
    draw is consumed on the collision path only. *)
Definition handleCursorCollision (random : Q) (currentCursor : string)
    (previousCursor : option string) (options : CursorOptions) : string :=
  if falsy previousCursor || differs currentCursor previousCursor
  then currentCursor
  else
    let intervalSeconds :=
      default DEFAULT_CURSOR_INTERVAL_SECONDS (intervalSeconds options) in
    let jitterSeconds := jitterSeconds random in
    let jitterIntervals := Math_ceil_div jitterSeconds intervalSeconds in
    let currentInterval := parseInt currentCursor in
    String_ (add currentInterval jitterIntervals).

(** [generateResponseCursor(clientCursor, options)] *)
Definition generateResponseCursor (now : Z) (random : Q)
    (clientCursor : option string) (options : CursorOptions) : string :=
  let currentCursor := calculateCursor now options in
  handleCursorCollision random currentCursor clientCursor options.

End Cursor.

(** ** [packages/client/src/utils.ts] *)

Module Client.

(** [new DurableStreamError(message, code, status)]; [status] is optional. *)
Record DurableStreamError : Type := mkDurableStreamError {
  message : string;
  code : string;
  err_status : option Z
}.

(** What the client reads of a fetch [Response]: the status and the headers. *)
Record Response : Type := mkResponse {
  status : Z;
  headers : gmap string string
}.

(** [context?: { operation?: string }] *)
Record ErrorContext : Type := mkErrorContext { operation : option string }.

(** [context?.operation === `create`] *)
Definition operation_is_create (context : option ErrorContext) : bool :=
  match context with
  | Some c =>
      match operation c with
      | Some op => String.eqb op "create"
      | None => false
      end
  | None => false
  end.

Section HandleErrorResponse.

(** [DurableStreamError.fromResponse] is defined in [error.ts], which is
    not among the sources; it is taken as given. *)
Variable fromResponse : Response -> string -> DurableStreamError.

(** [handleErrorResponse(response, url, context)] never returns: the
    result is the error it throws. *)
Definition handleErrorResponse (response : Response) (url : string)
    (context : option ErrorContext) : DurableStreamError :=
  let status := status response in
  if status =? 404 then
    mkDurableStreamError ("Stream not found: " ++ url) "NOT_FOUND" (Some 404)
  else if status =? 409 then
    let message :=
      if operation_is_create context
      then "Stream already exists: " ++ url
      else "Sequence conflict: seq is lower than last appended" in
    let code :=
      if operation_is_create context then "CONFLICT_EXISTS" else "CONFLICT_SEQ" in
    mkDurableStreamError message code (Some 409)
  else if status =? 400 then
    mkDurableStreamError "Bad request (possibly content-type mismatch)"
      "BAD_REQUEST" (Some 400)
  else fromResponse response url.

End HandleErrorResponse.

(** An instance of [fromResponse] that carries the response's status over
    to the error, used to exercise [handleErrorResponse]. *)
Definition fromResponse_status_only (response : Response) (url : string)
    : DurableStreamError :=
  mkDurableStreamError ("HTTP error at " ++ url) "UNKNOWN" (Some (status response)).

End Client.

(** ** The server's append contract *)

Module Server.

(** Modelled from the spec: the error kinds of the protocol (the server is
    not among the sources). *)
Inductive ErrorKind : Type :=
| InvalidArgument | NotFound | ConfigMismatch | SeqConflict
| OffsetGone | RateLimited | Internal.

(** Modelled from the spec: the HTTP status each error kind is mapped to. *)
Definition http_status (k : ErrorKind) : Z :=
  match k with
  | InvalidArgument => 400
  | NotFound => 404
  | ConfigMismatch => 409
  | SeqConflict => 409
  | OffsetGone => 410
  | RateLimited => 429
  | Internal => 500
  end.

(** Modelled from the spec: the part of a stream descriptor that appends
    are validated against. *)
Record StreamDescriptor : Type := mkStreamDescriptor {
  contentType : string;
  lastSeq : option string
}.

(** Modelled from the spec: a POST, by its [Content-Type] header, its body
    and its [Stream-Seq] header. *)
Record AppendRequest : Type := mkAppendRequest {
  req_contentType : string;
  req_body : string;
  req_seq : option string
}.

(** Modelled from the spec: [seq ≤ lastSeq] by string comparison, when
    both are present. *)
Definition seq_conflicts (seq lastSeq : option string) : bool :=
  match seq, lastSeq with
  | Some s, Some l => String.leb s l
  | _, _ => false
  end.

(** Modelled from the spec: the validation of [Store.Append] (the server's
    store and handlers are not among the sources).  The checks are made in
    the order the spec lists them: [NotFound] if the stream is absent or
    expired, [ConfigMismatch] if the POST content type does not match the
    stream's, [InvalidArgument] if the body is empty, [SeqConflict] if a
    [seq] is given and [seq ≤ lastSeq]; [None] is an accepted append. *)
Definition Append_validate (stream : option StreamDescriptor)
    (req : AppendRequest) : option ErrorKind :=
  match stream with
  | None => Some NotFound
  | Some d =>
      if negb (String.eqb (req_contentType req) (contentType d)) then Some ConfigMismatch
      else if String.eqb (req_body req) "" then Some InvalidArgument
      else if seq_conflicts (req_seq req) (lastSeq d) then Some SeqConflict
      else None
  end.

(** Modelled from the spec: the status of the POST handler's reply, the
    error kinds mapped by the taxonomy and success answered with 200. *)
Definition POST_status (stream : option StreamDescriptor) (req : AppendRequest) : Z :=
  match Append_validate stream req with
  | Some k => http_status k
  | None => 200
  end.

End Server.

(** ** [packages/client/src/response.ts]: the response stream of a session *)

Module ResponseStream.
Import Client.

(** [LiveMode], which [types.ts] (not among the sources) declares: the
    value [false] and the strings [auto], [long-poll] and [sse], as
    [response.ts] compares against them. *)
Inductive LiveMode : Type := live_false | live_auto | live_long_poll | live_sse.

(** Modelled from the spec: the name of the response header that carries
    the offset for the next read; [constants.ts], which binds it, is not
    among the sources. *)
Definition STREAM_OFFSET_HEADER : string := "Stream-Next-Offset".

(** Modelled from the spec: the name of the response header that carries
    the cursor ([constants.ts] is not among the sources). *)
Definition STREAM_CURSOR_HEADER : string := "Stream-Cursor".

(** Modelled from the spec: the name of the response header that marks a
    response ending at the tail ([constants.ts] is not among the sources). *)
Definition STREAM_UP_TO_DATE_HEADER : string := "Stream-Up-To-Date".

(** A thrown value: a [DurableStreamError], or whatever a rejected fetch
    carries. *)
Inductive Thrown : Type :=
| ThrownDurable (e : DurableStreamError)
| ThrownOther (description : string).

(** The [#closed] promise. *)
Inductive Settlement : Type := Pending | Resolved | Rejected (err : Thrown).

(** The [ReadableStream] seen from its controller. *)
Inductive StreamState : Type := Readable | Closed | Errored.

(** The fields of [StreamResponseImpl] that the response stream reads and
    writes, with the closure variable [firstResponseYielded], the
    [aborted] flag of the session's abort signal and the state of the
    stream itself.  [startSSE] is only tested for presence. *)
Record Session : Type := mkSession {
  live : LiveMode;
  offset : string;
  cursor : option string;
  upToDate : bool;
  stopAfterUpToDate : bool;
  has_startSSE : bool;
  aborted : bool;
  closed : Settlement;
  firstResponse : Response;
  firstResponseYielded : bool;
  stream : StreamState
}.

(** What a pull does to the outside: responses handed to the consumer, the
    end of the stream, and calls of [#fetchNext]. *)
Inductive Event : Type :=
| Enqueue (response : Response)
| Close
| Error (err : Thrown)
| FetchNext (offset : string) (cursor : option string).

(** The outcome of awaiting [#fetchNext]: a response, or a rejection,
    with whether the session was aborted while the fetch was pending. *)
Inductive Fetched : Type :=
| FetchedResponse (response : Response)
| FetchRejected (err : Thrown) (abortedMeanwhile : bool).

Definition set_state (offset' : string) (cursor' : option string)
    (upToDate' : bool) (s : Session) : Session :=
  mkSession (live s) offset' cursor' upToDate' (stopAfterUpToDate s)
    (has_startSSE s) (aborted s) (closed s) (firstResponse s)
    (firstResponseYielded s) (stream s).

Definition set_aborted (s : Session) : Session :=
  mkSession (live s) (offset s) (cursor s) (upToDate s) (stopAfterUpToDate s)
    (has_startSSE s) true (closed s) (firstResponse s)
    (firstResponseYielded s) (stream s).

Definition set_closed (c : Settlement) (s : Session) : Session :=
  mkSession (live s) (offset s) (cursor s) (upToDate s) (stopAfterUpToDate s)
    (has_startSSE s) (aborted s) c (firstResponse s)
    (firstResponseYielded s) (stream s).

Definition set_firstResponseYielded (s : Session) : Session :=
  mkSession (live s) (offset s) (cursor s) (upToDate s) (stopAfterUpToDate s)
    (has_startSSE s) (aborted s) (closed s) (firstResponse s) true (stream s).

Definition set_stream (st : StreamState) (s : Session) : Session :=
  mkSession (live s) (offset s) (cursor s) (upToDate s) (stopAfterUpToDate s)
    (has_startSSE s) (aborted s) (closed s) (firstResponse s)
    (firstResponseYielded s) st.

Definition set_stopAfterUpToDate (s : Session) : Session :=
  mkSession (live s) (offset s) (cursor s) (upToDate s) true
    (has_startSSE s) (aborted s) (closed s) (firstResponse s)
    (firstResponseYielded s) (stream s).

(** [#markClosed()]: a promise settles once. *)
Definition markClosed (s : Session) : Session :=
  match closed s with
  | Pending => set_closed Resolved s
  | _ => s
  end.

(** [#markError(err)] *)
Definition markError (err : Thrown) (s : Session) : Session :=
  match closed s with
  | Pending => set_closed (Rejected err) s
  | _ => s
  end.

(** [#shouldContinueLive()] *)
Definition shouldContinueLive (s : Session) : bool :=
  if stopAfterUpToDate s then false
  else match live s with
       | live_false => false
       | _ => true
       end.

(** A header value is truthy when present and not empty. *)
Definition truthy (v : option string) : bool :=
  match v with
  | Some x => negb (String.eqb x "")
  | None => false
  end.

(** [#updateStateFromResponse(response)] *)
Definition updateStateFromResponse (response : Response) (s : Session) : Session :=
  let offset' := headers response !! STREAM_OFFSET_HEADER in
  let cursor' := headers response !! STREAM_CURSOR_HEADER in
  set_state
    (if truthy offset' then default "" offset' else offset s)
    (if truthy cursor' then cursor' else cursor s)
    (bool_decide (is_Some (headers response !! STREAM_UP_TO_DATE_HEADER)))
    s.

(** [markClosed(); controller.close()] *)
Definition finish (s : Session) : Session := set_stream Closed (markClosed s).

Definition SSE_NOT_SUPPORTED : Thrown :=
  ThrownDurable
    (mkDurableStreamError "SSE mode is not yet implemented" "SSE_NOT_SUPPORTED" None).

(** The [try] block of [pull]: the new state, the events in order, and the
    value thrown if the block does not complete. *)
Definition pull_try (fetched : Fetched) (s : Session)
    : Session * list Event * option Thrown :=
  if negb (firstResponseYielded s) then
    let s := set_firstResponseYielded s in
    if upToDate s && negb (shouldContinueLive s)
    then (finish s, [Enqueue (firstResponse s); Close], None)
    else (s, [Enqueue (firstResponse s)], None)
  else if shouldContinueLive s then
    if match live s with live_sse => has_startSSE s | _ => false end
    then (s, [], Some SSE_NOT_SUPPORTED)
    else if aborted s then (finish s, [Close], None)
    else
      match fetched with
      | FetchRejected err abortedMeanwhile =>
          (if abortedMeanwhile then set_aborted s else s,
           [FetchNext (offset s) (cursor s)], Some err)
      | FetchedResponse response =>
          let s' := updateStateFromResponse response s in
          if upToDate s' && negb (shouldContinueLive s')
          then (finish s',
                [FetchNext (offset s) (cursor s); Enqueue response; Close], None)
          else (s', [FetchNext (offset s) (cursor s); Enqueue response], None)
      end
  else (finish s, [Close], None).

(** [pull]: the [try] block, then the [catch] clause on a thrown value. *)
Definition pull (fetched : Fetched) (s : Session) : Session * list Event :=
  match pull_try fetched s with
  | (s', events, None) => (s', events)
  | (s', events, Some err) =>
      if aborted s'
      then (finish s', (events ++ [Close])%list)
      else (set_stream Errored (markError err s'), (events ++ [Error err])%list)
  end.

(** [cancel(reason)] of the session. *)
Definition cancel (s : Session) : Session := markClosed (set_aborted s).

(** What can happen to a session: the consumer asks for the next response
    (the stream calls [pull] while it is readable), the session is
    cancelled, or a promise helper ([body], [json], [text]) sets
    [#stopAfterUpToDate]. *)
Inductive Op : Type :=
| OpPull (fetched : Fetched)
| OpCancel
| OpStopAfterUpToDate.

Definition step (op : Op) (s : Session) : Session * list Event :=
  match op with
  | OpPull fetched =>
      match stream s with
      | Readable => pull fetched s
      | _ => (s, [])
      end
  | OpCancel => (cancel s, [])
  | OpStopAfterUpToDate => (set_stopAfterUpToDate s, [])
  end.

(** The events of a whole session, in order. *)
Fixpoint run (ops : list Op) (s : Session) : list Event :=
  match ops with
  | [] => []
  | op :: ops' => let '(s', events) := step op s in (events ++ run ops' s')%list
  end.

Definition is_FetchNext (e : Event) : bool :=
  match e with
  | FetchNext _ _ => true
  | _ => false
  end.

(** A session asked for SSE and given an SSE starter. *)
Definition sse_with_starter (s : Session) : Prop :=
  live s = live_sse /\ has_startSSE s = true.

(** [new StreamResponseImpl(config)], before the first pull. *)
Definition new_session (live : LiveMode) (has_startSSE : bool)
    (initialOffset : string) (initialCursor : option string)
    (initialUpToDate : bool) (firstResponse : Response) : Session :=
  mkSession live initialOffset initialCursor initialUpToDate false
    has_startSSE false Pending firstResponse false Readable.

End ResponseStream.

(** ** The Go client: [ChunkIterator] *)

Module Go.

(** [type Offset string] *)
Definition Offset : Type := string.

(** [type LiveMode string] *)
Definition LiveMode : Type := string.

Definition LiveModeNone : LiveMode := "".
Definition LiveModeLongPoll : LiveMode := "long-poll".
Definition LiveModeSSE : LiveMode := "sse".
Definition LiveModeAuto : LiveMode := "auto".

(** Modelled from the spec: the name of the response header that carries
    the offset for the next read; the file of the package that binds it is
    not among the sources. *)
Definition headerStreamOffset : string := "Stream-Next-Offset".

(** Modelled from the spec: the name of the response header that carries
    the cursor. *)
Definition headerStreamCursor : string := "Stream-Cursor".

(** Modelled from the spec: the name of the response header that marks a
    response ending at the tail. *)
Definition headerStreamUpToDate : string := "Stream-Up-To-Date".

(** Modelled from the spec: the name of the entity-tag response header. *)
Definition headerETag : string := "ETag".

Definition StatusOK : Z := 200.
Definition StatusNoContent : Z := 204.
Definition StatusNotModified : Z := 304.
Definition StatusNotFound : Z := 404.
Definition StatusGone : Z := 410.

(** The errors [Next] and [Close] can return.  [errorFromStatus] is
    defined outside the sources and kept symbolic. *)
Inductive error : Type :=
| ErrAlreadyClosed
| Done
| ErrStreamNotFound
| ErrOffsetGone
| ctx_Err
| cause (description : string)
| errorFromStatus (statusCode : Z)
| newStreamError (op url : string) (statusCode : Z) (err : error).

Record Chunk : Type := mkChunk {
  NextOffset : Offset;
  Data : option string;
  UpToDate : bool;
  Cursor : string;
  ETag : string
}.

(** [resp.Header.Get(name)]: the empty string when the header is absent. *)
Definition Header_Get (h : gmap string string) (name : string) : string :=
  default "" (h !! name).

(** An [*http.Response]: [Body] is what [io.ReadAll] yields, a read error
    or the bytes. *)
Record Response : Type := mkResponse {
  StatusCode : Z;
  Header : gmap string string;
  Body : error + string
}.

(** The request [Next] sends: the arguments of [buildReadURL] and the
    custom headers. *)
Record Request : Type := mkRequest {
  req_url : string;
  req_offset : Offset;
  req_live : LiveMode;
  req_cursor : string;
  req_headers : gmap string string
}.

(** What the world answers during one call of [Next]: building the request
    fails, the round trip fails (and the context may have been cancelled by
    then), or a response arrives. *)
Inductive RoundTrip : Type :=
| NewRequestFails (err : error)
| DoFails (err : error) (ctxCancelled : bool)
| DoResponds (resp : Response).

(** The iterator.  [ctx_done] is whether the iterator's context is
    cancelled; the mutex is not modelled, calls are sequential. *)
Record ChunkIterator : Type := mkChunkIterator {
  stream_url : string;
  ctx_done : bool;
  offset : Offset;
  live : LiveMode;
  cursor : string;
  headers : gmap string string;
  it_Offset : Offset;
  it_UpToDate : bool;
  it_Cursor : string;
  closed : bool;
  doneOnce : bool
}.

Definition set_ctx_done (it : ChunkIterator) : ChunkIterator :=
  mkChunkIterator (stream_url it) true (offset it) (live it) (cursor it)
    (headers it) (it_Offset it) (it_UpToDate it) (it_Cursor it) (closed it)
    (doneOnce it).

Definition set_offset (o : Offset) (it : ChunkIterator) : ChunkIterator :=
  mkChunkIterator (stream_url it) (ctx_done it) o (live it) (cursor it)
    (headers it) o (it_UpToDate it) (it_Cursor it) (closed it) (doneOnce it).

Definition set_cursor (c : string) (it : ChunkIterator) : ChunkIterator :=
  mkChunkIterator (stream_url it) (ctx_done it) (offset it) (live it) c
    (headers it) (it_Offset it) (it_UpToDate it) c (closed it) (doneOnce it).

Definition set_UpToDate (u : bool) (it : ChunkIterator) : ChunkIterator :=
  mkChunkIterator (stream_url it) (ctx_done it) (offset it) (live it) (cursor it)
    (headers it) (it_Offset it) u (it_Cursor it) (closed it) (doneOnce it).

Definition set_doneOnce (it : ChunkIterator) : ChunkIterator :=
  mkChunkIterator (stream_url it) (ctx_done it) (offset it) (live it) (cursor it)
    (headers it) (it_Offset it) (it_UpToDate it) (it_Cursor it) (closed it) true.

Definition set_closed (it : ChunkIterator) : ChunkIterator :=
  mkChunkIterator (stream_url it) (ctx_done it) (offset it) (live it) (cursor it)
    (headers it) (it_Offset it) (it_UpToDate it) (it_Cursor it) true
    (doneOnce it).

(** The result of [Next]: the pair Go returns, the iterator afterwards, and
    the requests handed to the HTTP client during the call. *)
Record NextResult : Type := mkNextResult {
  chunk : option Chunk;
  err : option error;
  after : ChunkIterator;
  sent : list Request
}.

Definition fails (e : error) (it : ChunkIterator) (sent : list Request) : NextResult :=
  mkNextResult None (Some e) it sent.

(** The [switch resp.StatusCode] of [Next]. *)
Definition handle_response (resp : Response) (it : ChunkIterator)
    (sent : list Request) : NextResult :=
  let status := StatusCode resp in
  if status =? StatusOK then
    match Body resp with
    | inl e => fails (newStreamError "read" (stream_url it) status e) it sent
    | inr data =>
        let nextOffset := Header_Get (Header resp) headerStreamOffset in
        let cursor := Header_Get (Header resp) headerStreamCursor in
        let upToDate := String.eqb (Header_Get (Header resp) headerStreamUpToDate) "true" in
        let etag := Header_Get (Header resp) headerETag in
        let it := set_UpToDate upToDate (set_cursor cursor (set_offset nextOffset it)) in
        let it :=
          if upToDate && String.eqb (live it) LiveModeNone then set_doneOnce it else it in
        mkNextResult (Some (mkChunk nextOffset (Some data) upToDate cursor etag))
          None it sent
    end
  else if status =? StatusNoContent then
    let nextOffset := Header_Get (Header resp) headerStreamOffset in
    let cursor := Header_Get (Header resp) headerStreamCursor in
    let upToDate := String.eqb (Header_Get (Header resp) headerStreamUpToDate) "true" in
    let it := if negb (String.eqb nextOffset "") then set_offset nextOffset it else it in
    let it := if negb (String.eqb cursor "") then set_cursor cursor it else it in
    let it := set_UpToDate upToDate it in
    if String.eqb (live it) LiveModeNone
    then fails Done (set_doneOnce it) sent
    else mkNextResult (Some (mkChunk nextOffset None upToDate cursor "")) None it sent
  else if status =? StatusNotModified then
    let cursor := Header_Get (Header resp) headerStreamCursor in
    let it := if negb (String.eqb cursor "") then set_cursor cursor it else it in
    mkNextResult
      (Some (mkChunk (offset it) None (it_UpToDate it) (Go.cursor it) ""))
      None it sent
  else if status =? StatusNotFound then
    fails (newStreamError "read" (stream_url it) status ErrStreamNotFound) it sent
  else if status =? StatusGone then
    fails (newStreamError "read" (stream_url it) status ErrOffsetGone) it sent
  else
    fails (newStreamError "read" (stream_url it) status (errorFromStatus status)) it sent.

(** [ChunkIterator.Next()], which returns a chunk and an error; the answer
    of the HTTP round trip is [world]. *)
Definition Next (world : RoundTrip) (it : ChunkIterator) : NextResult :=
  if closed it then fails ErrAlreadyClosed it []
  else if doneOnce it then fails Done it []
  else if ctx_done it then fails ctx_Err it []
  else
    match world with
    | NewRequestFails e => fails (newStreamError "read" (stream_url it) 0 e) it []
    | DoFails e ctxCancelled =>
        let request :=
          mkRequest (stream_url it) (offset it) (live it) (cursor it) (headers it) in
        if ctxCancelled
        then fails ctx_Err (set_ctx_done it) [request]
        else fails (newStreamError "read" (stream_url it) 0 e) it [request]
    | DoResponds resp =>
        let request :=
          mkRequest (stream_url it) (offset it) (live it) (cursor it) (headers it) in
        handle_response resp it [request]
    end.

(** [ChunkIterator.Close()]: the error returned ([None] is
    nil) and the iterator afterwards; closing cancels the context. *)
Definition Close (it : ChunkIterator) : option error * ChunkIterator :=
  if closed it then (None, it)
  else (None, set_ctx_done (set_closed it)).

(** The calls a user of the iterator can make, and the cancellation of the
    parent context from outside. *)
Inductive Call : Type :=
| CallNext (world : RoundTrip)
| CallClose
| CancelContext.

(** What a call returned, as far as the properties below look at it. *)
Inductive Outcome : Type :=
| NextReturned (chunk : option Chunk) (err : option error) (sent : list Request)
| CloseReturned (err : option error)
| ContextCancelled.

Definition call (c : Call) (it : ChunkIterator) : Outcome * ChunkIterator :=
  match c with
  | CallNext world =>
      let r := Next world it in
      (NextReturned (chunk r) (err r) (sent r), after r)
  | CallClose => let '(e, it') := Close it in (CloseReturned e, it')
  | CancelContext => (ContextCancelled, set_ctx_done it)
  end.

(** The outcomes of a sequence of calls, and the iterator afterwards. *)
Fixpoint calls (cs : list Call) (it : ChunkIterator) : list Outcome * ChunkIterator :=
  match cs with
  | [] => ([], it)
  | c :: cs' =>
      let '(o, it') := call c it in
      let '(os, it'') := calls cs' it' in
      (o :: os, it'')
  end.

(** The iterator after a sequence of calls. *)
Definition after_calls (cs : list Call) (it : ChunkIterator) : ChunkIterator :=
  snd (calls cs it).

Definition is_CallClose (c : Call) : bool :=
  match c with
  | CallClose => true
  | _ => false
  end.

(** A 200 response that ends at the tail of the stream, used in examples. *)
Definition response_up_to_date : Response :=
  mkResponse 200
    (<[headerStreamOffset := "0000000000000001_0000000000000010"]>
       (<[headerStreamUpToDate := "true"]> ∅))
    (inr "hello").

(** A 204 response that carries no stream header, used in examples. *)
Definition response_no_content : Response := mkResponse 204 ∅ (inr "").

(** A fresh iterator, as [Stream.Read] hands it out. *)
Definition new_iterator (url : string) (offset : Offset) (live : LiveMode)
    (headers : gmap string string) : ChunkIterator :=
  mkChunkIterator url false offset live "" headers offset false "" false false.

End Go.

(** ** [packages/client/src/utils.ts]: resolving headers and params *)

Module ClientUtils.
Import ResponseStream.

(** A value of type [T | (() => MaybePromise<T>)] with [T = string]: the
    string itself, or a function.  A function is called once where it is
    resolved and is represented by the outcome of that call: the string it
    returns or resolves to, or what it throws or rejects with. *)
Inductive MaybeFunction : Type :=
| Plain (value : string)
| Function (outcome : Thrown + string).

(** [resolveValue(value)]: the awaited result, [inl] a rejection. *)
Definition resolveValue (value : MaybeFunction) : Thrown + string :=
  match value with
  | Plain v => inr v
  | Function outcome => outcome
  end.

(** [resolved[key] = value] on a record that an object literal created,
    for a string [value]: the property is stored, except under the key
    [__proto__], where the assignment reaches the accessor of the prototype,
    which ignores a string and stores nothing. *)
Definition assign (key value : string) (resolved : gmap string string)
    : gmap string string :=
  if String.eqb key "__proto__" then resolved else <[key := value]> resolved.

(** The loop of [resolveHeaders] over [Object.entries(headers)], with the
    record [resolved] built so far; a rejected [await] ends it. *)
Fixpoint resolveHeaders_loop (entries : list (string * MaybeFunction))
    (resolved : gmap string string) : Thrown + gmap string string :=
  match entries with
  | [] => inr resolved
  | (key, value) :: entries' =>
      match value with
      | Function outcome =>
          match outcome with
          | inl thrown => inl thrown
          | inr v => resolveHeaders_loop entries' (assign key v resolved)
          end
      | Plain v => resolveHeaders_loop entries' (assign key v resolved)
      end
  end.

(** [resolveHeaders(headers)]; [None] is an omitted argument, and the
    headers are given by their entries, in the order of [Object.entries]. *)
Definition resolveHeaders (headers : option (list (string * MaybeFunction)))
    : Thrown + gmap string string :=
  match headers with
  | None => inr ∅
  | Some entries => resolveHeaders_loop entries ∅
  end.

(** The loop of [resolveParams]; a value [None] is [undefined]. *)
Fixpoint resolveParams_loop (entries : list (string * option MaybeFunction))
    (resolved : gmap string string) : Thrown + gmap string string :=
  match entries with
  | [] => inr resolved
  | (key, value) :: entries' =>
      match value with
      | Some (Function outcome) =>
          match outcome with
          | inl thrown => inl thrown
          | inr v => resolveParams_loop entries' (assign key v resolved)
          end
      | Some (Plain v) => resolveParams_loop entries' (assign key v resolved)
      | None => resolveParams_loop entries' resolved
      end
  end.

(** [resolveParams(params)] *)
Definition resolveParams (params : option (list (string * option MaybeFunction)))
    : Thrown + gmap string string :=
  match params with
  | None => inr ∅
  | Some entries => resolveParams_loop entries ∅
  end.

(** The entries whose value is not [undefined]. *)
Definition defined_entries (entries : list (string * option MaybeFunction))
    : list (string * MaybeFunction) :=
  omap (fun '(key, value) => pair key <$> value) entries.

(** Whether resolving the value of an entry throws. *)
Definition throws (value : MaybeFunction) : bool :=
  match value with
  | Function (inl _) => true
  | _ => false
  end.

End ClientUtils.

(** ** [packages/client-go/client.go] *)

Module GoClient.

(** [strings.HasPrefix(s, prefix)] *)
Fixpoint HasPrefix (s prefix : string) : bool :=
  match prefix with
  | EmptyString => true
  | String p prefix' =>
      match s with
      | EmptyString => false
      | String c s' => Ascii.eqb c p && HasPrefix s' prefix'
      end
  end.

(** [strings.HasSuffix(s, suffix)]:
    [len(s) >= len(suffix) && s[len(s)-len(suffix):] == suffix]. *)
Definition HasSuffix (s suffix : string) : bool :=
  (String.length suffix <=? String.length s)%nat &&
  String.eqb
    (substring (String.length s - String.length suffix) (String.length suffix) s)
    suffix.

(** [strings.TrimSuffix(s, suffix)]: [s] without the suffix, once, if it
    ends with it. *)
Definition TrimSuffix (s suffix : string) : string :=
  if HasSuffix s suffix
  then substring 0 (String.length s - String.length suffix) s
  else s.

Section Client.

(** [*http.Client] and [RetryPolicy] are not looked into; the default HTTP
    client and [DefaultRetryPolicy()] are taken as given. *)
Variables HTTPClient RetryPolicy : Type.
Variable defaultHTTPClient : HTTPClient.
Variable DefaultRetryPolicy : RetryPolicy.

(** [clientConfig], as [NewClient] reads it; a nil pointer is [None]. *)
Record clientConfig : Type := mkClientConfig {
  cfg_httpClient : option HTTPClient;
  cfg_baseURL : string;
  cfg_retryPolicy : option RetryPolicy
}.

(** [ClientOption]: a function that updates the configuration in place. *)
Definition ClientOption : Type := clientConfig -> clientConfig.

Record Client : Type := mkClient {
  httpClient : HTTPClient;
  baseURL : string;
  retryPolicy : RetryPolicy
}.

(** The handle [Client.Stream] returns. *)
Record Stream : Type := mkStream {
  url : string;
  client : Client
}.

(** [cfg := &clientConfig{}; for _, opt := range opts { opt(cfg) }] *)
Definition apply_options (opts : list ClientOption) : clientConfig :=
  fold_left (fun cfg opt => opt cfg) opts (mkClientConfig None "" None).

(** [NewClient(opts...)] *)
Definition NewClient (opts : list ClientOption) : Client :=
  let cfg := apply_options opts in
  let httpClient := default defaultHTTPClient (cfg_httpClient cfg) in
  let retryPolicy := default DefaultRetryPolicy (cfg_retryPolicy cfg) in
  mkClient httpClient (TrimSuffix (cfg_baseURL cfg) "/") retryPolicy.

(** [(c *Client) Stream(url)] *)
Definition Client_Stream (c : Client) (url : string) : Stream :=
  let fullURL :=
    if negb (HasPrefix url "http://") && negb (HasPrefix url "https://")
    then (if negb (String.eqb (baseURL c) "") then baseURL c ++ url else url)
    else url in
  mkStream fullURL c.

(** [(c *Client) HTTPClient()] *)
Definition Client_HTTPClient (c : Client) : HTTPClient := httpClient c.

End Client.

(** A client option that sets the base URL, used to exercise [NewClient]. *)
Definition option_baseURL (b : string) : ClientOption unit unit :=
  fun cfg => mkClientConfig unit unit (cfg_httpClient _ _ cfg) b (cfg_retryPolicy _ _ cfg).

End GoClient.

(** ** Observations on the events of a session and the outcomes of calls *)

Module Trace.

(** The responses handed to the consumer, in order. *)
Definition enqueued (events : list ResponseStream.Event) : list Client.Response :=
  omap (fun e => match e with
                 | ResponseStream.Enqueue r => Some r
                 | _ => None
                 end) events.

(** The positions the session fetched from, in order. *)
Definition fetched_from (events : list ResponseStream.Event)
    : list (string * option string) :=
  omap (fun e => match e with
                 | ResponseStream.FetchNext o c => Some (o, c)
                 | _ => None
                 end) events.

(** The session after a sequence of operations. *)
Fixpoint run_to (ops : list ResponseStream.Op) (s : ResponseStream.Session)
    : ResponseStream.Session :=
  match ops with
  | [] => s
  | op :: ops' => run_to ops' (fst (ResponseStream.step op s))
  end.

(** An event that ends the stream. *)
Definition ends_stream (e : ResponseStream.Event) : bool :=
  match e with
  | ResponseStream.Close | ResponseStream.Error _ => true
  | _ => false
  end.

(** A call of [Next] that returned the [Done] sentinel. *)
Definition returned_Done (o : Go.Outcome) : bool :=
  match o with
  | Go.NextReturned _ (Some Go.Done) _ => true
  | _ => false
  end.

(** A round trip in which the request could not be built. *)
Definition is_NewRequestFails (world : Go.RoundTrip) : bool :=
  match world with
  | Go.NewRequestFails _ => true
  | _ => false
  end.

(** The request [Next] builds from the iterator. *)
Definition request_of (it : Go.ChunkIterator) : Go.Request :=
  Go.mkRequest (Go.stream_url it) (Go.offset it) (Go.live it) (Go.cursor it)
    (Go.headers it).

End Trace.

(* ===================================================================== *)
(** * Part II: properties                                                 *)
(* ===================================================================== *)

(** ** The embedding on concrete inputs *)

Section Examples.
Import JS Cursor.

Example cursor_at_epoch : calculateCursor 1766102400000 no_options = "0".
Proof. reflexivity. Qed.

Example cursor_end_of_third_interval :
  calculateCursor 1766102459999 no_options = "2".
Proof. reflexivity. Qed.

Example cursor_before_epoch : calculateCursor 1766102399999 no_options = "-1".
Proof. reflexivity. Qed.

Example cursor_zero_interval :
  calculateCursor 1766102400001 (mkCursorOptions (Some 0) None) = "Infinity".
Proof. reflexivity. Qed.

Example parseInt_prefix : parseInt "  -12ab" = Int (-12).
Proof. reflexivity. Qed.

Example parseInt_no_digit : parseInt "NaN" = NaN.
Proof. reflexivity. Qed.

Example jitter_smallest : jitterSeconds 0 = 1.
Proof. reflexivity. Qed.

Example jitter_largest : jitterSeconds (3599 # 3600) = 3600.
Proof. reflexivity. Qed.

Example collision_advances :
  generateResponseCursor 1766102400000 (1 # 2) (Some "0") no_options = "91".
Proof. reflexivity. Qed.

Example empty_client_cursor_is_no_collision :
  handleCursorCollision (1 # 2) "0" (Some "") no_options = "0".
Proof. reflexivity. Qed.

End Examples.

(** ** Decimal rendering and [parseInt] *)

Section Decimal.
Import JS.

Lemma digit_prefix_string_of_uint (d : Decimal.uint) :
  digit_prefix (NilEmpty.string_of_uint d) = d.
Proof. induction d; simpl; rewrite ?IHd; reflexivity. Qed.

Lemma digits_value_string_of_uint (sign : Z) (p : positive) :
  digits_value sign (NilEmpty.string_of_uint (Pos.to_uint p)) = Int (sign * Z.pos p).
Proof.
  unfold digits_value. rewrite digit_prefix_string_of_uint.
  pose proof (DecimalPos.Unsigned.to_uint_nonnil p) as Hnil.
  pose proof (DecimalPos.Unsigned.of_to p) as Hof.
  destruct (Pos.to_uint p) eqn:E; try congruence;
    unfold N.of_uint; rewrite Hof; reflexivity.
Qed.

(** The rendering of a positive number starts with a digit. *)
Lemma string_of_uint_head (p : positive) :
  exists c s,
    NilEmpty.string_of_uint (Pos.to_uint p) = String c s /\
    is_white_space c = false /\ c <> "-"%char /\ c <> "+"%char.
Proof.
  pose proof (DecimalPos.Unsigned.to_uint_nonnil p) as Hnil.
  destruct (Pos.to_uint p) eqn:E; try congruence; simpl;
    eexists _, _; (split; [reflexivity |]); repeat split; discriminate.
Qed.

Lemma NilZero_string_of_uint_pos (p : positive) :
  NilZero.string_of_uint (Pos.to_uint p) = NilEmpty.string_of_uint (Pos.to_uint p).
Proof.
  pose proof (DecimalPos.Unsigned.to_uint_nonnil p) as Hnil.
  destruct (Pos.to_uint p); congruence || reflexivity.
Qed.

Lemma parseInt_positive (p : positive) :
  parseInt (NilEmpty.string_of_uint (Pos.to_uint p)) = Int (Z.pos p).
Proof.
  assert (digits_value 1 (NilEmpty.string_of_uint (Pos.to_uint p)) = Int (Z.pos p)) as Hd
    by (rewrite digits_value_string_of_uint; f_equal; lia).
  destruct (string_of_uint_head p) as (c & s & Hs & Hws & Hm & Hp).
  unfold parseInt. rewrite Hs in *.
  change (trim_start (String c s))
    with (if is_white_space c then trim_start s else String c s).
  rewrite Hws.
  destruct c as [[] [] [] [] [] [] [] []]; try exact Hd; congruence.
Qed.

(** Reading back the rendering of an integer gives the integer. *)
Lemma parseInt_String (z : Z) : parseInt (String_ (Int z)) = Int z.
Proof.
  destruct z as [|p|p]; simpl.
  - reflexivity.
  - rewrite NilZero_string_of_uint_pos. apply parseInt_positive.
  - rewrite NilZero_string_of_uint_pos.
    unfold parseInt. simpl.
    rewrite digits_value_string_of_uint. f_equal.
Qed.

Lemma String_Int_inj (a b : Z) : String_ (Int a) = String_ (Int b) -> a = b.
Proof.
  intros H. apply (f_equal parseInt) in H.
  rewrite !parseInt_String in H. congruence.
Qed.

Lemma String_Int_nonempty (z : Z) : String_ (Int z) <> "".
Proof.
  intros H. apply (f_equal parseInt) in H.
  rewrite parseInt_String in H. discriminate.
Qed.

(** Division of integers in the rationals, then [floor], is [Z.div]. *)
Lemma Qfloor_div (a b : Z) :
  0 < b -> Qfloor (inject_Z a / inject_Z b) = a / b.
Proof.
  intros Hb. destruct b as [|p|p]; try lia.
  unfold Qdiv, Qmult, Qinv, inject_Z, Qfloor. simpl.
  rewrite Z.mul_1_r. reflexivity.
Qed.

(** [ceil] of the same quotient is the negated [floor] of the negated one. *)
Lemma Qceiling_div (a b : Z) :
  0 < b -> Qceiling (inject_Z a / inject_Z b) = - ((- a) / b).
Proof.
  intros Hb. destruct b as [|p|p]; try lia.
  unfold Qceiling, Qdiv, Qmult, Qinv, Qopp, inject_Z, Qfloor. simpl.
  rewrite Z.mul_1_r. reflexivity.
Qed.

End Decimal.

(** ** The cursor engine *)

Section CursorFacts.
Import JS Cursor.

(** With a non-zero interval the computed cursor renders an integer. *)
Lemma calculateCursor_Int (now : Z) (options : CursorOptions) :
  default DEFAULT_CURSOR_INTERVAL_SECONDS (intervalSeconds options) <> 0 ->
  calculateCursor now options =
  String_ (Int ((now - getTime (default DEFAULT_CURSOR_EPOCH (epoch options)))
                / (default DEFAULT_CURSOR_INTERVAL_SECONDS (intervalSeconds options) * 1000))).
Proof.
  intros Hi. unfold calculateCursor, Math_floor_div.
  destruct (Z.eqb_spec
    (default DEFAULT_CURSOR_INTERVAL_SECONDS (intervalSeconds options) * 1000) 0);
    [lia | reflexivity].
Qed.

(** The quotient [a / b] is the number of the interval of length [b] that
    holds [a]. *)
Lemma interval_bounds (a b : Z) :
  0 < b -> (a / b) * b <= a < (a / b + 1) * b.
Proof.
  intros Hb. pose proof (Z.div_mod a b ltac:(lia)) as Hdm.
  pose proof (Z.mod_pos_bound a b Hb) as Hm. nia.
Qed.

Lemma interval_unique (a b k : Z) :
  0 < b -> k * b <= a < (k + 1) * b -> a / b = k.
Proof.
  intros Hb Hk. pose proof (interval_bounds a b Hb) as Hq. nia.
Qed.

(** The drawn jitter lies between the two bounds. *)
Lemma jitterSeconds_range (random : Q) :
  (0 <= random < 1)%Q ->
  MIN_JITTER_SECONDS <= jitterSeconds random <= MAX_JITTER_SECONDS.
Proof.
  intros [Hlo Hhi]. unfold jitterSeconds, MIN_JITTER_SECONDS, MAX_JITTER_SECONDS.
  change (3600 - 1 + 1) with 3600.
  assert (0 <= Qfloor (random * inject_Z 3600)) as H0.
  { change 0 with (Qfloor (inject_Z 0)) at 1. apply Qfloor_resp_le.
    change (inject_Z 0) with (0 * inject_Z 3600)%Q.
    apply Qmult_le_compat_r; [exact Hlo | discriminate]. }
  assert (Qfloor (random * inject_Z 3600) < 3600) as H1.
  { rewrite Zlt_Qlt.
    apply Qle_lt_trans with (random * inject_Z 3600)%Q; [apply Qfloor_le |].
    apply Qlt_le_trans with (1 * inject_Z 3600)%Q.
    - apply Qmult_lt_compat_r; [reflexivity | exact Hhi].
    - unfold Qle; simpl; lia. }
  lia.
Qed.

(** A positive jitter advances the cursor by at least one interval. *)
Lemma ceil_div_positive (J interval : Z) :
  1 <= J -> 0 < interval -> 1 <= - ((- J) / interval).
Proof.
  intros HJ Hi. pose proof (interval_bounds (- J) interval Hi). nia.
Qed.

Lemma ceil_div_upper (J interval : Z) :
  J <= MAX_JITTER_SECONDS -> 0 < interval ->
  - ((- J) / interval) <= - ((- MAX_JITTER_SECONDS) / interval).
Proof.
  intros HJ Hi.
  pose proof (Z.div_le_mono (- MAX_JITTER_SECONDS) (- J) interval Hi ltac:(lia)). lia.
Qed.

(** No collision: the computed cursor is returned as it is. *)
Lemma handleCursorCollision_no_collision (random : Q) (currentCursor : string)
    (previousCursor : option string) (options : CursorOptions) :
  previousCursor <> Some currentCursor ->
  handleCursorCollision random currentCursor previousCursor options = currentCursor.
Proof.
  intros Hne. unfold handleCursorCollision.
  destruct previousCursor as [p|]; simpl; [| reflexivity].
  destruct (String.eqb_spec currentCursor p) as [->|_]; [congruence |].
  rewrite orb_true_r. reflexivity.
Qed.

(** Collision on the rendering of an integer. *)
Lemma handleCursorCollision_collision (random : Q) (n : Z) (options : CursorOptions) :
  default DEFAULT_CURSOR_INTERVAL_SECONDS (intervalSeconds options) <> 0 ->
  handleCursorCollision random (String_ (Int n)) (Some (String_ (Int n))) options =
  String_ (Int (n + - ((- jitterSeconds random)
                       / default DEFAULT_CURSOR_INTERVAL_SECONDS (intervalSeconds options)))).
Proof.
  intros Hi. unfold handleCursorCollision, falsy, differs.
  destruct (String.eqb_spec (String_ (Int n)) "") as [E|_];
    [exfalso; exact (String_Int_nonempty n E) |].
  rewrite String.eqb_refl. simpl orb. cbv iota.
  rewrite parseInt_String. unfold Math_ceil_div.
  destruct (Z.eqb_spec
    (default DEFAULT_CURSOR_INTERVAL_SECONDS (intervalSeconds options)) 0);
    [contradiction | reflexivity].
Qed.

End CursorFacts.

Section CursorClaims.
Import JS Cursor.

(** C1.  For a clock reading [now] at or after the epoch and a positive
    interval length, [calculateCursor] returns the decimal rendering of
    [floor ((now - epochMs) / (intervalSeconds * 1000))], the quotient taken
    in the rationals.  That number [n] is the interval number since the
    epoch: it is not negative, the [n]-th interval after the epoch holds
    [now], and reading the cursor back with [parseInt] gives [n]. *)
Theorem calculateCursor_interval_number
    (now : Z) (options : CursorOptions) (interval epochMs : Z) :
  default DEFAULT_CURSOR_INTERVAL_SECONDS (intervalSeconds options) = interval ->
  getTime (default DEFAULT_CURSOR_EPOCH (epoch options)) = epochMs ->
  epochMs <= now ->
  0 < interval ->
  calculateCursor now options =
    String_ (Int (Qfloor (inject_Z (now - epochMs) / inject_Z (interval * 1000)))) /\
  exists n : Z,
    calculateCursor now options = String_ (Int n) /\
    parseInt (calculateCursor now options) = Int n /\
    0 <= n /\
    n * (interval * 1000) <= now - epochMs < (n + 1) * (interval * 1000).
Proof.
  intros Hi He Hnow Hpos.
  assert (0 < interval * 1000) as Hms by lia.
  assert (calculateCursor now options =
          String_ (Int ((now - epochMs) / (interval * 1000)))) as Hc.
  { rewrite calculateCursor_Int by lia. rewrite Hi, He. reflexivity. }
  split.
  - rewrite Qfloor_div by exact Hms. exact Hc.
  - exists ((now - epochMs) / (interval * 1000)).
    rewrite Hc, parseInt_String.
    repeat split; try apply interval_bounds; try exact Hms.
    apply Z.div_pos; lia.
Qed.

Lemma calculateCursor_interval_number_witness :
  calculateCursor 1766102459999 no_options = "2".
Proof.
  destruct (calculateCursor_interval_number 1766102459999 no_options 20 1766102400000
              eq_refl eq_refl ltac:(lia) ltac:(lia)) as [H _].
  rewrite H. reflexivity.
Defined.




(** C3, as stated, fails, in three ways.  (1) Two requests in the same
    interval, the first with a client cursor that collides and the second
    with none: the first is answered with the jittered cursor 91, the later
    one with 0, so the strings differ and the later cursor is numerically
    smaller.  (2) In the same interval, an earlier request without client
    cursor is answered 0 and a later one that collides 91: the strings
    differ.  (3) With [intervalSeconds = -20] and no client cursors, the
    cursor is 0 at the epoch and -1 twenty seconds later. *)
Lemma generateResponseCursor_collision_not_monotone :
  1766102400000 <= 1766102400001 /\
  calculateCursor 1766102400000 no_options = calculateCursor 1766102400001 no_options /\
  generateResponseCursor 1766102400000 (1 # 2) (Some "0") no_options = "91" /\
  generateResponseCursor 1766102400001 (1 # 2) None no_options = "0" /\
  parseInt "91" = Int 91 /\ parseInt "0" = Int 0 /\
  91 > 0 /\ "91" <> "0" /\
  generateResponseCursor 1766102400000 (1 # 2) None no_options = "0" /\
  generateResponseCursor 1766102400001 (1 # 2) (Some "0") no_options = "91" /\
  1766102400000 <= 1766102420000 /\
  generateResponseCursor 1766102400000 (1 # 2) None (mkCursorOptions (Some (-20)) None)
  = "0" /\
  generateResponseCursor 1766102420000 (1 # 2) None (mkCursorOptions (Some (-20)) None)
  = "-1" /\
  parseInt "-1" = Int (-1) /\ -1 < 0.
Proof.
  repeat split; try reflexivity; try lia; discriminate.
Qed.

(** C3, amended.  For a fixed epoch, a positive interval length and draws
    of [Math.random()] in [0, 1), take two request times [t1 <= t2].  If the
    client cursor of the earlier request does not collide (it is absent or
    differs from the cursor computed at [t1]), the cursor returned at [t2] is
    numerically at least the cursor returned at [t1], whatever client cursor
    the later request carries.  If neither client cursor collides and both
    times lie in the same interval, the two returned cursors are the same
    string. *)
Theorem generateResponseCursor_monotone_stable
    (t1 t2 : Z) (r1 r2 : Q) (c1 c2 : option string)
    (options : CursorOptions) (interval epochMs : Z) :
  default DEFAULT_CURSOR_INTERVAL_SECONDS (intervalSeconds options) = interval ->
  getTime (default DEFAULT_CURSOR_EPOCH (epoch options)) = epochMs ->
  0 < interval ->
  t1 <= t2 ->
  c1 <> Some (calculateCursor t1 options) ->
  (0 <= r2 < 1)%Q ->
  (exists n1 n2 : Z,
     parseInt (generateResponseCursor t1 r1 c1 options) = Int n1 /\
     parseInt (generateResponseCursor t2 r2 c2 options) = Int n2 /\
     n1 <= n2) /\
  (c2 <> Some (calculateCursor t2 options) ->
   forall k : Z,
     k * (interval * 1000) <= t1 - epochMs ->
     t2 - epochMs < (k + 1) * (interval * 1000) ->
     generateResponseCursor t1 r1 c1 options = generateResponseCursor t2 r2 c2 options).
Proof.
  intros Hi He Hpos Ht Hc1 Hr2.
  assert (0 < interval * 1000) as Hms by lia.
  assert ((t1 - epochMs) / (interval * 1000) <= (t2 - epochMs) / (interval * 1000))
    as Hmono by (apply Z.div_le_mono; lia).
  unfold generateResponseCursor.
  rewrite (handleCursorCollision_no_collision r1 _ c1 options Hc1).
  split.
  - destruct (decide (c2 = Some (calculateCursor t2 options))) as [-> | Hc2].
    + rewrite !calculateCursor_Int by lia. rewrite Hi, He.
      rewrite handleCursorCollision_collision by lia. rewrite Hi.
      eexists _, _. rewrite !parseInt_String. repeat split.
      pose proof (jitterSeconds_range r2 Hr2) as HJ. unfold MIN_JITTER_SECONDS in HJ.
      pose proof (ceil_div_positive (jitterSeconds r2) interval ltac:(lia) Hpos).
      lia.
    + rewrite (handleCursorCollision_no_collision r2 _ c2 options Hc2).
      rewrite !calculateCursor_Int by lia. rewrite Hi, He.
      eexists _, _. rewrite !parseInt_String. repeat split. exact Hmono.
  - intros Hc2 k Hlo Hhi.
    rewrite (handleCursorCollision_no_collision r2 _ c2 options Hc2).
    rewrite !calculateCursor_Int by lia. rewrite Hi, He.
    rewrite (interval_unique (t1 - epochMs) (interval * 1000) k) by lia.
    rewrite (interval_unique (t2 - epochMs) (interval * 1000) k) by lia.
    reflexivity.
Qed.

Lemma generateResponseCursor_monotone_stable_witness :
  (exists n1 n2 : Z,
     parseInt (generateResponseCursor 1766102400000 (1 # 2) (Some "7") no_options)
     = Int n1 /\
     parseInt (generateResponseCursor 1766102419999 (1 # 3) (Some "0") no_options)
     = Int n2 /\
     n1 <= n2) /\
  generateResponseCursor 1766102400000 (1 # 2) (Some "7") no_options
  = generateResponseCursor 1766102419999 (1 # 3) None no_options.
Proof.
  split.
  - apply (generateResponseCursor_monotone_stable
             1766102400000 1766102419999 (1 # 2) (1 # 3) (Some "7") (Some "0") no_options
             20 1766102400000 eq_refl eq_refl ltac:(lia) ltac:(lia)
             ltac:(discriminate)
             ltac:(split; [unfold Qle | unfold Qlt]; simpl; lia)).
  - destruct (generateResponseCursor_monotone_stable
                1766102400000 1766102419999 (1 # 2) (1 # 3) (Some "7") None no_options
                20 1766102400000 eq_refl eq_refl ltac:(lia) ltac:(lia)
                ltac:(discriminate)
                ltac:(split; [unfold Qle | unfold Qlt]; simpl; lia)) as [_ Hsame].
    apply (Hsame ltac:(discriminate) 0); lia.
Defined.

(** C6.  Omitted options take the defaults.  The default interval is 20
    seconds and the default epoch is 2025-12-19T00:00:00Z, that is
    1766102400000 ms after 1970-01-01T00:00:00Z: 20441 days, which are the 55
    years 1970 to 2024 with their 14 leap days and the 352 days of 2025 before
    December 19.  With empty options [calculateCursor] returns the rendering
    of [floor ((now - 1766102400000) / 20000)]; with only the interval omitted
    it divides by 20000 the time since the given epoch; with only the epoch
    omitted it counts the given intervals from 1766102400000; with both given
    it uses both.  So a call with empty options gives the same result as the
    call with both defaults passed explicitly, and so does a call that omits
    either one.  On a collision the advance is counted in intervals of the
    default 20 seconds (a jitter of 1801 seconds advances by 91), and in the
    given intervals otherwise (by 61 for 30 seconds). *)
Theorem default_options_explicit
    (now i e : Z) (random : Q) (currentCursor : string) (clientCursor : option string)
    (options : CursorOptions) :
  DEFAULT_CURSOR_INTERVAL_SECONDS = 20 /\
  DEFAULT_CURSOR_EPOCH = Date_UTC 2025 11 19 0 0 0 0 /\
  getTime DEFAULT_CURSOR_EPOCH = 1766102400000 /\
  1766102400000 = (55 * 365 + 14 + 352) * (24 * 60 * 60 * 1000) /\
  calculateCursor now no_options
  = String_ (Int (Qfloor (inject_Z (now - 1766102400000) / inject_Z (20 * 1000)))) /\
  calculateCursor now (mkCursorOptions None (Some (mkDate e)))
  = String_ (Int (Qfloor (inject_Z (now - e) / inject_Z (20 * 1000)))) /\
  (i <> 0 ->
   calculateCursor now (mkCursorOptions (Some i) None)
   = String_ (Int ((now - 1766102400000) / (i * 1000)))) /\
  (i <> 0 ->
   calculateCursor now (mkCursorOptions (Some i) (Some (mkDate e)))
   = String_ (Int ((now - e) / (i * 1000)))) /\
  calculateCursor now no_options
  = calculateCursor now (mkCursorOptions (Some 20) (Some (mkDate 1766102400000))) /\
  handleCursorCollision random currentCursor clientCursor no_options
  = handleCursorCollision random currentCursor clientCursor
      (mkCursorOptions (Some 20) (Some (mkDate 1766102400000))) /\
  generateResponseCursor now random clientCursor no_options
  = generateResponseCursor now random clientCursor
      (mkCursorOptions (Some 20) (Some (mkDate 1766102400000))) /\
  generateResponseCursor now random clientCursor options
  = generateResponseCursor now random clientCursor
      (mkCursorOptions
         (Some (default 20 (intervalSeconds options)))
         (Some (default (mkDate 1766102400000) (epoch options)))) /\
  handleCursorCollision (1 # 2) "7" (Some "7") no_options = "98" /\
  handleCursorCollision (1 # 2) "7" (Some "7") (mkCursorOptions (Some 30) None) = "68".
Proof.
  assert (forall i' e' : Z,
            i' <> 0 ->
            calculateCursor now (mkCursorOptions (Some i') (Some (mkDate e')))
            = String_ (Int ((now - e') / (i' * 1000)))) as Hexplicit.
  { intros i' e' Hi'. rewrite calculateCursor_Int by exact Hi'. reflexivity. }
  split; [reflexivity |]. split; [reflexivity |]. split; [reflexivity |].
  split; [reflexivity |].
  split; [rewrite Qfloor_div by lia; apply (Hexplicit 20 1766102400000); lia |].
  split; [rewrite Qfloor_div by lia; apply (Hexplicit 20 e); lia |].
  split; [intros Hi; apply (Hexplicit i 1766102400000 Hi) |].
  split; [intros Hi; apply (Hexplicit i e Hi) |].
  repeat split; destruct options as [[i'|] [e'|]]; reflexivity.
Qed.

End CursorClaims.

(** ** The client's error mapping *)

Section ClientErrorClaims.
Import Client.

(** The branches of [handleErrorResponse] on the three statuses it names. *)
Lemma handleErrorResponse_404 fromResponse (response : Response) (url : string)
    (context : option ErrorContext) :
  status response = 404 ->
  handleErrorResponse fromResponse response url context
  = mkDurableStreamError ("Stream not found: " ++ url) "NOT_FOUND" (Some 404).
Proof. intros H. unfold handleErrorResponse. rewrite H. reflexivity. Qed.

Lemma handleErrorResponse_409_not_create fromResponse (response : Response)
    (url : string) (context : option ErrorContext) :
  status response = 409 ->
  operation_is_create context = false ->
  handleErrorResponse fromResponse response url context
  = mkDurableStreamError "Sequence conflict: seq is lower than last appended"
      "CONFLICT_SEQ" (Some 409).
Proof. intros H Hc. unfold handleErrorResponse. rewrite H, Hc. reflexivity. Qed.

Lemma handleErrorResponse_status fromResponse (response : Response) (url : string)
    (context : option ErrorContext) :
  (forall r u, err_status (fromResponse r u) = Some (status r)) ->
  err_status (handleErrorResponse fromResponse response url context)
  = Some (status response).
Proof.
  intros Hfrom. unfold handleErrorResponse.
  destruct (Z.eqb_spec (status response) 404) as [->|_]; [reflexivity |].
  destruct (Z.eqb_spec (status response) 409) as [->|_]; [reflexivity |].
  destruct (Z.eqb_spec (status response) 400) as [->|_]; [reflexivity |].
  apply Hfrom.
Qed.

(** The Go iterator reports a 404 response as [ErrStreamNotFound], too. *)
Lemma Next_404_not_found (resp : Go.Response) (it : Go.ChunkIterator) :
  Go.closed it = false ->
  Go.doneOnce it = false ->
  Go.ctx_done it = false ->
  Go.StatusCode resp = 404 ->
  Go.chunk (Go.Next (Go.DoResponds resp) it) = None /\
  Go.err (Go.Next (Go.DoResponds resp) it)
  = Some (Go.newStreamError "read" (Go.stream_url it) 404 Go.ErrStreamNotFound).
Proof.
  intros Hc Hd Hx Hs. unfold Go.Next. rewrite Hc, Hd, Hx.
  unfold Go.handle_response. rewrite Hs. split; reflexivity.
Qed.

(** C7.  [DurableStreamError.fromResponse] being any function that gives
    the error the status of the response, a response with status 404 makes
    [handleErrorResponse] throw the error "Stream not found" with code
    [NOT_FOUND] and status 404, and the thrown error has code [NOT_FOUND]
    and status 404 exactly when the response status is 404. *)
Theorem handleErrorResponse_not_found_iff
    (fromResponse : Response -> string -> DurableStreamError)
    (response : Response) (url : string) (context : option ErrorContext) :
  (forall r u, err_status (fromResponse r u) = Some (status r)) ->
  (status response = 404 ->
   handleErrorResponse fromResponse response url context
   = mkDurableStreamError ("Stream not found: " ++ url) "NOT_FOUND" (Some 404)) /\
  (code (handleErrorResponse fromResponse response url context) = "NOT_FOUND" /\
   err_status (handleErrorResponse fromResponse response url context) = Some 404
   <-> status response = 404).
Proof.
  intros Hfrom. split; [apply handleErrorResponse_404 |].
  split.
  - intros [_ Hs].
    rewrite (handleErrorResponse_status _ _ _ _ Hfrom) in Hs. congruence.
  - intros H. rewrite (handleErrorResponse_404 _ _ _ _ H). split; reflexivity.
Qed.

Lemma handleErrorResponse_not_found_iff_witness :
  code (handleErrorResponse fromResponse_status_only (mkResponse 404 ∅)
          "http://localhost/v1/stream/s1" None) = "NOT_FOUND" /\
  err_status (handleErrorResponse fromResponse_status_only (mkResponse 404 ∅)
                "http://localhost/v1/stream/s1" None) = Some 404.
Proof.
  apply (handleErrorResponse_not_found_iff fromResponse_status_only
           (mkResponse 404 ∅) "http://localhost/v1/stream/s1" None
           (fun r u => eq_refl)).
  reflexivity.
Defined.

(** The server side of C5, on the append contract as the spec gives it: a
    POST whose content type differs from the stream's fails with
    [ConfigMismatch], status 409, whatever the body and the sequence. *)
Lemma Append_content_type_mismatch (d : Server.StreamDescriptor)
    (req : Server.AppendRequest) :
  Server.req_contentType req <> Server.contentType d ->
  Server.Append_validate (Some d) req = Some Server.ConfigMismatch /\
  Server.POST_status (Some d) req = 409.
Proof.
  intros Hne. unfold Server.POST_status, Server.Append_validate.
  destruct (String.eqb_spec (Server.req_contentType req) (Server.contentType d));
    [contradiction | split; reflexivity].
Qed.

(** C5, where the client departs from it.  A POST of [application/json]
    to a [text/plain] stream is refused by the append contract with
    [ConfigMismatch] and status 409, whatever the body and the sequence.
    On that status, for an operation that is not [create] (no context, or an
    [append] context), [handleErrorResponse] throws [CONFLICT_SEQ],
    "Sequence conflict: seq is lower than last appended": the content-type
    mismatch reaches the caller as a sequence conflict. *)
Theorem append_mismatch_reported_as_sequence_conflict
    (fromResponse : Response -> string -> DurableStreamError)
    (url body : string) (seq lastSeq : option string) (hdrs : gmap string string) :
  Server.Append_validate (Some (Server.mkStreamDescriptor "text/plain" lastSeq))
    (Server.mkAppendRequest "application/json" body seq) = Some Server.ConfigMismatch /\
  Server.POST_status (Some (Server.mkStreamDescriptor "text/plain" lastSeq))
    (Server.mkAppendRequest "application/json" body seq) = 409 /\
  handleErrorResponse fromResponse (mkResponse 409 hdrs) url None
  = mkDurableStreamError "Sequence conflict: seq is lower than last appended"
      "CONFLICT_SEQ" (Some 409) /\
  handleErrorResponse fromResponse (mkResponse 409 hdrs) url
    (Some (mkErrorContext (Some "append")))
  = mkDurableStreamError "Sequence conflict: seq is lower than last appended"
      "CONFLICT_SEQ" (Some 409).
Proof. repeat split. Qed.

End ClientErrorClaims.

(** ** The client's response stream *)

Section ResponseStreamClaims.
Import Client ResponseStream.

Lemma pull_try_sse_with_starter (fetched : Fetched) (s : Session) :
  sse_with_starter s ->
  sse_with_starter (fst (fst (pull_try fetched s))) /\
  forallb (fun e => negb (is_FetchNext e)) (snd (fst (pull_try fetched s))) = true.
Proof.
  intros [Hl Hs]. unfold pull_try, sse_with_starter.
  destruct s as [lv off cur utd stop sse ab cl fr fy st]; simpl in *; subst.
  destruct fy, utd, stop, ab, cl; simpl; auto.
Qed.

Lemma pull_sse_with_starter (fetched : Fetched) (s : Session) :
  sse_with_starter s ->
  sse_with_starter (fst (pull fetched s)) /\
  forallb (fun e => negb (is_FetchNext e)) (snd (pull fetched s)) = true.
Proof.
  intros H. destruct (pull_try_sse_with_starter fetched s H) as [[Hl Hs] Hev].
  unfold pull. destruct (pull_try fetched s) as [[s' events] [err|]]; simpl in *.
  - destruct s' as [lv off cur utd stop sse ab cl fr fy st]; simpl in *; subst.
    unfold sse_with_starter.
    destruct ab, cl; simpl; rewrite forallb_app, Hev; auto.
  - split; [split |]; assumption.
Qed.

Lemma step_sse_with_starter (op : Op) (s : Session) :
  sse_with_starter s ->
  sse_with_starter (fst (step op s)) /\
  forallb (fun e => negb (is_FetchNext e)) (snd (step op s)) = true.
Proof.
  intros H. destruct op as [fetched| |]; simpl.
  - destruct (stream s); simpl; auto using pull_sse_with_starter.
  - destruct H as [Hl Hs]. unfold sse_with_starter, cancel, markClosed.
    destruct s as [lv off cur utd stop sse ab cl fr fy st]; simpl in *; subst.
    destruct cl; simpl; auto.
  - destruct H as [Hl Hs]. unfold sse_with_starter. simpl. auto.
Qed.

Lemma run_sse_with_starter (ops : list Op) (s : Session) :
  sse_with_starter s ->
  forallb (fun e => negb (is_FetchNext e)) (run ops s) = true.
Proof.
  revert s. induction ops as [|op ops IH]; intros s H; simpl; [reflexivity |].
  destruct (step_sse_with_starter op s H) as [Hs Hev].
  destruct (step op s) as [s' events]; simpl in *.
  rewrite forallb_app, Hev. apply IH. exact Hs.
Qed.

(** C4, as stated, fails: a session with [live = sse] and no SSE starter.
    After the first response its next pull calls [#fetchNext], the long-poll
    fetch, and hands the fetched response to the consumer; no error is
    raised. *)
Lemma sse_without_starter_long_polls :
  run [OpPull (FetchedResponse (mkResponse 200 ∅));
       OpPull (FetchedResponse (mkResponse 204 ∅))]
      (new_session live_sse false "0000000000000001_0000000000000010" (Some "7")
         true (mkResponse 200 ∅))
  = [Enqueue (mkResponse 200 ∅);
     FetchNext "0000000000000001_0000000000000010" (Some "7");
     Enqueue (mkResponse 204 ∅)].
Proof. vm_compute. reflexivity. Qed.

(** C4, amended.  In a session with [live = sse] that was given an SSE
    starter, no pull ever calls [#fetchNext], whatever the consumer does and
    in whatever order: there is no fall-back to long-poll.  Once the first
    response has been handed over, the next pull of a session that is
    neither aborted nor told to stop raises the error [SSE_NOT_SUPPORTED]:
    the stream is errored and the [closed] promise, if still pending, is
    rejected with that error. *)
Theorem sse_with_starter_never_long_polls (ops : list Op) (s : Session) :
  live s = live_sse ->
  has_startSSE s = true ->
  (forall e, In e (run ops s) -> is_FetchNext e = false) /\
  (firstResponseYielded s = true -> stopAfterUpToDate s = false ->
   aborted s = false ->
   forall fetched,
     snd (pull fetched s) = [Error SSE_NOT_SUPPORTED] /\
     stream (fst (pull fetched s)) = Errored /\
     (closed s = Pending -> closed (fst (pull fetched s)) = Rejected SSE_NOT_SUPPORTED)).
Proof.
  intros Hl Hs. split.
  - intros e He.
    pose proof (run_sse_with_starter ops s (conj Hl Hs)) as Hall.
    rewrite forallb_forall in Hall. specialize (Hall e He).
    destruct (is_FetchNext e); [discriminate | reflexivity].
  - intros Hfy Hstop Hab fetched. unfold pull, pull_try, shouldContinueLive.
    rewrite Hfy, Hstop, Hl, Hs. simpl. rewrite Hab.
    repeat split. intros Hc. unfold markError. rewrite Hc. reflexivity.
Qed.

Lemma sse_with_starter_never_long_polls_witness :
  run [OpPull (FetchedResponse (mkResponse 200 ∅));
       OpPull (FetchedResponse (mkResponse 204 ∅))]
      (new_session live_sse true "0000000000000001_0000000000000010" (Some "7")
         true (mkResponse 200 ∅))
  = [Enqueue (mkResponse 200 ∅); Error SSE_NOT_SUPPORTED] /\
  forall e,
    In e (run [OpPull (FetchedResponse (mkResponse 200 ∅));
               OpPull (FetchedResponse (mkResponse 204 ∅))]
            (new_session live_sse true "0000000000000001_0000000000000010" (Some "7")
               true (mkResponse 200 ∅))) ->
    is_FetchNext e = false.
Proof.
  split; [vm_compute; reflexivity |].
  apply (sse_with_starter_never_long_polls
           [OpPull (FetchedResponse (mkResponse 200 ∅));
            OpPull (FetchedResponse (mkResponse 204 ∅))]
           (new_session live_sse true "0000000000000001_0000000000000010" (Some "7")
              true (mkResponse 200 ∅)) eq_refl eq_refl).
Defined.

End ResponseStreamClaims.

(** ** The Go chunk iterator *)

Section ChunkIteratorClaims.
Import Go.

(** [Next] and [Close] never reopen an iterator and never clear [doneOnce]. *)
Lemma handle_response_flags (resp : Response) (it : ChunkIterator)
    (sent : list Request) :
  closed (after (handle_response resp it sent)) = closed it /\
  (doneOnce it = true -> doneOnce (after (handle_response resp it sent)) = true).
Proof.
  unfold handle_response.
  repeat match goal with
         | |- context [if ?b then _ else _] => destruct b; simpl
         | |- context [match Body resp with _ => _ end] => destruct (Body resp); simpl
         end; auto.
Qed.

Lemma Next_flags (world : RoundTrip) (it : ChunkIterator) :
  closed (after (Next world it)) = closed it /\
  (doneOnce it = true -> doneOnce (after (Next world it)) = true).
Proof.
  unfold Next.
  destruct (closed it) eqn:Hc; simpl; [split; congruence |].
  destruct (doneOnce it) eqn:Hd; simpl; [split; congruence |].
  destruct (ctx_done it) eqn:Hx; simpl; [split; congruence |].
  destruct world as [e|e [|]|resp]; simpl; try (split; congruence).
  destruct (handle_response_flags resp it
              [mkRequest (stream_url it) (offset it) (live it) (cursor it) (headers it)])
    as [H1 H2].
  rewrite H1. split; [exact Hc | discriminate].
Qed.

Lemma call_flags (c : Call) (it : ChunkIterator) :
  closed (snd (call c it)) = closed it || is_CallClose c /\
  (doneOnce it = true -> doneOnce (snd (call c it)) = true).
Proof.
  destruct c as [world| |]; simpl.
  - destruct (Next_flags world it) as [H1 H2]. rewrite H1, orb_false_r. auto.
  - unfold Close. destruct (closed it) eqn:Hc; simpl; auto.
  - rewrite orb_false_r. auto.
Qed.

Lemma after_calls_flags (cs : list Call) (it : ChunkIterator) :
  closed (after_calls cs it) = closed it || existsb is_CallClose cs /\
  (doneOnce it = true -> doneOnce (after_calls cs it) = true).
Proof.
  unfold after_calls. revert it.
  induction cs as [|c cs IH]; intros it; simpl.
  - rewrite orb_false_r. auto.
  - destruct (call_flags c it) as [Hc Hd].
    destruct (call c it) as [o it'] eqn:E; simpl in *.
    destruct (IH it') as [Hc' Hd'].
    destruct (calls cs it') as [os it''] eqn:E'; simpl in *.
    rewrite Hc', Hc, orb_assoc. auto.
Qed.

(** A call of [Next] on a closed iterator, and on a finished one. *)
Lemma Next_closed (world : RoundTrip) (it : ChunkIterator) :
  closed it = true -> Next world it = fails ErrAlreadyClosed it [].
Proof. intros H. unfold Next. rewrite H. reflexivity. Qed.

Lemma Next_doneOnce (world : RoundTrip) (it : ChunkIterator) :
  closed it = false -> doneOnce it = true -> Next world it = fails Done it [].
Proof. intros Hc Hd. unfold Next. rewrite Hc, Hd. reflexivity. Qed.

(** The first call of [Next] that finishes a catch-up iterator: it leaves
    the iterator open and marked as done. *)
Lemma Next_marks_done (resp : Response) (it : ChunkIterator) :
  live it = LiveModeNone ->
  (StatusCode resp = 200 /\
   exists c, chunk (Next (DoResponds resp) it) = Some c /\ UpToDate c = true) \/
  (StatusCode resp = 204 /\ sent (Next (DoResponds resp) it) <> []) ->
  closed (after (Next (DoResponds resp) it)) = false /\
  doneOnce (after (Next (DoResponds resp) it)) = true.
Proof.
  intros Hlive H. unfold Next in *.
  destruct (closed it) eqn:Hc; simpl in *;
    [destruct H as [(_ & c & H & _) | (_ & H)]; congruence |].
  destruct (doneOnce it) eqn:Hd; simpl in *;
    [destruct H as [(_ & c & H & _) | (_ & H)]; congruence |].
  destruct (ctx_done it) eqn:Hx; simpl in *;
    [destruct H as [(_ & c & H & _) | (_ & H)]; congruence |].
  unfold handle_response in *.
  destruct H as [(Hs & c & H & Hu) | (Hs & _)]; rewrite Hs in *; simpl in *.
  - destruct (Body resp) as [e|data]; simpl in *; [discriminate |].
    injection H as <-. simpl in Hu. rewrite Hu, Hlive. simpl. auto.
  - repeat match goal with
           | |- context [if negb ?b then _ else _] => destruct b; simpl
           end; rewrite Hlive; simpl; auto.
Qed.

(** C8, as stated, fails: a catch-up iterator receives a 200 chunk that is
    up to date, is closed, and is asked again.  The last call sends no
    request, but it returns [ErrAlreadyClosed], not [Done]. *)
Lemma Next_after_done_and_Close :
  fst (calls [CallNext (DoResponds response_up_to_date);
              CallClose;
              CallNext (DoResponds response_up_to_date)]
         (new_iterator "http://localhost/v1/stream/s1" "-1" LiveModeNone ∅))
  = [NextReturned
       (Some (mkChunk "0000000000000001_0000000000000010" (Some "hello") true "" ""))
       None
       [mkRequest "http://localhost/v1/stream/s1" "-1" LiveModeNone "" ∅];
     CloseReturned None;
     NextReturned None (Some ErrAlreadyClosed) []].
Proof. vm_compute. reflexivity. Qed.

(** C8, amended.  Take a catch-up iterator ([LiveModeNone]) whose call of
    [Next] has returned a 200 chunk with [UpToDate] set, or has sent its
    request and processed a 204 response.  After any further calls, a call
    of [Next] sends no HTTP request and returns no chunk; it returns [Done]
    as long as [Close] has not been called, and [ErrAlreadyClosed] once it
    has. *)
Theorem Next_after_done (resp : Response) (it : ChunkIterator)
    (cs : list Call) (world : RoundTrip) :
  live it = LiveModeNone ->
  (StatusCode resp = 200 /\
   exists c, chunk (Next (DoResponds resp) it) = Some c /\ UpToDate c = true) \/
  (StatusCode resp = 204 /\ sent (Next (DoResponds resp) it) <> []) ->
  sent (Next world (after_calls cs (after (Next (DoResponds resp) it)))) = [] /\
  chunk (Next world (after_calls cs (after (Next (DoResponds resp) it)))) = None /\
  err (Next world (after_calls cs (after (Next (DoResponds resp) it))))
  = Some (if existsb is_CallClose cs then ErrAlreadyClosed else Done).
Proof.
  intros Hlive H.
  destruct (Next_marks_done resp it Hlive H) as [Hc Hd].
  destruct (after_calls_flags cs (after (Next (DoResponds resp) it))) as [Hc' Hd'].
  rewrite Hc in Hc'. simpl in Hc'. specialize (Hd' Hd).
  destruct (existsb is_CallClose cs).
  - rewrite Next_closed by exact Hc'. repeat split.
  - rewrite Next_doneOnce by assumption. repeat split.
Qed.

Lemma Next_after_done_witness :
  err (Next (DoResponds response_up_to_date)
         (after_calls [CancelContext; CallNext (DoResponds response_no_content)]
            (after (Next (DoResponds response_no_content)
                      (new_iterator "http://localhost/v1/stream/s1" "-1"
                         LiveModeNone ∅)))))
  = Some Done.
Proof.
  apply (Next_after_done response_no_content
           (new_iterator "http://localhost/v1/stream/s1" "-1" LiveModeNone ∅)
           [CancelContext; CallNext (DoResponds response_no_content)]
           (DoResponds response_up_to_date) eq_refl).
  right. split; [reflexivity | vm_compute; discriminate].
Defined.

(** The four position fields after a 204 response, by the header values
    [Header.Get] reads. *)
Lemma Next_204_fields (resp : Response) (it : ChunkIterator) :
  closed it = false ->
  doneOnce it = false ->
  ctx_done it = false ->
  StatusCode resp = 204 ->
  it_Offset (after (Next (DoResponds resp) it))
  = (if String.eqb (Header_Get (Header resp) headerStreamOffset) ""
     then it_Offset it else Header_Get (Header resp) headerStreamOffset) /\
  offset (after (Next (DoResponds resp) it))
  = (if String.eqb (Header_Get (Header resp) headerStreamOffset) ""
     then offset it else Header_Get (Header resp) headerStreamOffset) /\
  it_Cursor (after (Next (DoResponds resp) it))
  = (if String.eqb (Header_Get (Header resp) headerStreamCursor) ""
     then it_Cursor it else Header_Get (Header resp) headerStreamCursor) /\
  cursor (after (Next (DoResponds resp) it))
  = (if String.eqb (Header_Get (Header resp) headerStreamCursor) ""
     then cursor it else Header_Get (Header resp) headerStreamCursor).
Proof.
  intros Hc Hd Hx Hs. unfold Next. rewrite Hc, Hd, Hx.
  unfold handle_response. rewrite Hs. simpl.
  destruct (String.eqb (Header_Get (Header resp) headerStreamOffset) "");
    destruct (String.eqb (Header_Get (Header resp) headerStreamCursor) "");
    simpl;
    match goal with
    | |- context [if String.eqb ?a LiveModeNone then _ else _] =>
        destruct (String.eqb a LiveModeNone)
    end; simpl; auto.
Qed.

(** C9.  When [Next] processes a 204 response, the iterator's [Offset]
    (and the internal [offset]) takes the value of the [Stream-Next-Offset]
    header if the response carries a non-empty one and is unchanged
    otherwise; likewise [Cursor] (and the internal [cursor]) with the
    [Stream-Cursor] header. *)
Theorem Next_204_updates_only_from_headers (resp : Response) (it : ChunkIterator) :
  closed it = false ->
  doneOnce it = false ->
  ctx_done it = false ->
  StatusCode resp = 204 ->
  (forall v, Header resp !! headerStreamOffset = Some v -> v <> "" ->
     it_Offset (after (Next (DoResponds resp) it)) = v /\
     offset (after (Next (DoResponds resp) it)) = v) /\
  (Header resp !! headerStreamOffset = None \/
   Header resp !! headerStreamOffset = Some "" ->
     it_Offset (after (Next (DoResponds resp) it)) = it_Offset it /\
     offset (after (Next (DoResponds resp) it)) = offset it) /\
  (forall v, Header resp !! headerStreamCursor = Some v -> v <> "" ->
     it_Cursor (after (Next (DoResponds resp) it)) = v /\
     cursor (after (Next (DoResponds resp) it)) = v) /\
  (Header resp !! headerStreamCursor = None \/
   Header resp !! headerStreamCursor = Some "" ->
     it_Cursor (after (Next (DoResponds resp) it)) = it_Cursor it /\
     cursor (after (Next (DoResponds resp) it)) = cursor it).
Proof.
  intros Hc Hd Hx Hs.
  destruct (Next_204_fields resp it Hc Hd Hx Hs) as (HO & Ho & HC & Hcu).
  rewrite HO, Ho, HC, Hcu. unfold Header_Get.
  split; [| split; [| split]].
  - intros v Hv Hne. rewrite Hv. simpl.
    destruct (String.eqb_spec v ""); [contradiction | auto].
  - intros [Hv | Hv]; rewrite Hv; simpl; auto.
  - intros v Hv Hne. rewrite Hv. simpl.
    destruct (String.eqb_spec v ""); [contradiction | auto].
  - intros [Hv | Hv]; rewrite Hv; simpl; auto.
Qed.

Lemma Next_204_updates_only_from_headers_witness :
  it_Offset (after (Next (DoResponds response_no_content)
                      (new_iterator "http://localhost/v1/stream/s1"
                         "0000000000000003_0000000000000142" LiveModeLongPoll ∅)))
  = "0000000000000003_0000000000000142".
Proof.
  apply (Next_204_updates_only_from_headers response_no_content
           (new_iterator "http://localhost/v1/stream/s1"
              "0000000000000003_0000000000000142" LiveModeLongPoll ∅)
           eq_refl eq_refl eq_refl eq_refl).
  left. reflexivity.
Defined.

(** C10.  [Close] returns nil.  After it has returned, and after any
    further calls, [Next] returns a nil chunk and [ErrAlreadyClosed]
    (sending no request and leaving the iterator as it is), and [Close]
    again returns nil and changes nothing. *)
Theorem Next_after_Close (it : ChunkIterator) (cs : list Call) (world : RoundTrip) :
  fst (Close it) = None /\
  chunk (Next world (after_calls cs (snd (Close it)))) = None /\
  err (Next world (after_calls cs (snd (Close it)))) = Some ErrAlreadyClosed /\
  sent (Next world (after_calls cs (snd (Close it)))) = [] /\
  after (Next world (after_calls cs (snd (Close it)))) = after_calls cs (snd (Close it)) /\
  Close (after_calls cs (snd (Close it))) = (None, after_calls cs (snd (Close it))).
Proof.
  assert (closed (snd (Close it)) = true) as Hclosed.
  { unfold Close. destruct (closed it) eqn:Hc; simpl; [exact Hc | reflexivity]. }
  destruct (after_calls_flags cs (snd (Close it))) as [Hc' _].
  rewrite Hclosed in Hc'. simpl in Hc'.
  split; [unfold Close; destruct (closed it); reflexivity |].
  rewrite Next_closed by exact Hc'.
  repeat split. unfold Close at 1. rewrite Hc'. reflexivity.
Qed.

End ChunkIteratorClaims.

(* ===================================================================== *)
(** * Part III: further properties of the code                            *)
(* ===================================================================== *)

(** ** More on the cursor engine *)

Section CursorMore.
Import JS Cursor.

(** X1.  For a positive interval length, moving the clock by [k] whole
    intervals moves the computed cursor by exactly [k], before and after the
    epoch alike; across an interval boundary the cursor is a different
    string. *)
Theorem calculateCursor_advances_per_interval
    (now k : Z) (options : CursorOptions) (interval : Z) :
  default DEFAULT_CURSOR_INTERVAL_SECONDS (intervalSeconds options) = interval ->
  0 < interval ->
  exists n : Z,
    calculateCursor now options = String_ (Int n) /\
    calculateCursor (now + k * (interval * 1000)) options = String_ (Int (n + k)) /\
    (k <> 0 ->
     calculateCursor (now + k * (interval * 1000)) options <> calculateCursor now options).
Proof.
  intros Hi Hpos.
  rewrite !calculateCursor_Int by lia. rewrite Hi.
  set (e := getTime (default DEFAULT_CURSOR_EPOCH (epoch options))).
  exists ((now - e) / (interval * 1000)).
  replace (now + k * (interval * 1000) - e) with (now - e + k * (interval * 1000)) by lia.
  rewrite Z.div_add by lia.
  repeat split. intros Hk H. apply String_Int_inj in H. lia.
Qed.

Lemma calculateCursor_advances_per_interval_witness :
  exists n : Z,
    calculateCursor 1766102419999 no_options = String_ (Int n) /\
    calculateCursor (1766102419999 + 1 * (20 * 1000)) no_options = String_ (Int (n + 1)).
Proof.
  destruct (calculateCursor_advances_per_interval 1766102419999 1 no_options 20
              eq_refl ltac:(lia)) as (n & H1 & H2 & _).
  exists n. split; assumption.
Defined.

(** X2.  On a collision, with a positive interval length and a draw in
    [0, 1), the returned cursor is ahead of the computed one by at least one
    interval and by at most [ceil (3600 / intervalSeconds)] intervals; the
    intervals before the last one of the advance span less than 3600
    seconds. *)
Theorem collision_advance_bounded
    (now : Z) (random : Q) (options : CursorOptions) (interval : Z) :
  default DEFAULT_CURSOR_INTERVAL_SECONDS (intervalSeconds options) = interval ->
  0 < interval ->
  (0 <= random < 1)%Q ->
  exists n m : Z,
    calculateCursor now options = String_ (Int n) /\
    generateResponseCursor now random (Some (calculateCursor now options)) options
    = String_ (Int m) /\
    1 <= m - n <= Qceiling (inject_Z 3600 / inject_Z interval) /\
    (m - n - 1) * interval < 3600.
Proof.
  intros Hi Hpos Hrand.
  pose proof (jitterSeconds_range random Hrand) as HJ.
  unfold MIN_JITTER_SECONDS, MAX_JITTER_SECONDS in HJ.
  unfold generateResponseCursor.
  rewrite calculateCursor_Int by lia.
  set (n := (now - getTime (default DEFAULT_CURSOR_EPOCH (epoch options)))
            / (default DEFAULT_CURSOR_INTERVAL_SECONDS (intervalSeconds options) * 1000)).
  rewrite handleCursorCollision_collision by lia. rewrite Hi.
  exists n, (n + - (- jitterSeconds random / interval)).
  rewrite Qceiling_div by exact Hpos.
  pose proof (ceil_div_positive (jitterSeconds random) interval ltac:(lia) Hpos) as Hlow.
  pose proof (ceil_div_upper (jitterSeconds random) interval
                ltac:(unfold MAX_JITTER_SECONDS; lia) Hpos) as Hup.
  unfold MAX_JITTER_SECONDS in Hup.
  pose proof (interval_bounds (- jitterSeconds random) interval Hpos) as Hb.
  repeat split; try reflexivity; try lia; nia.
Qed.

Lemma collision_advance_bounded_witness :
  exists n m : Z,
    generateResponseCursor 1766102400000 (3599 # 3600) (Some "0") no_options
    = String_ (Int m) /\
    calculateCursor 1766102400000 no_options = String_ (Int n) /\
    m - n <= 180.
Proof.
  destruct (collision_advance_bounded 1766102400000 (3599 # 3600) no_options 20
              eq_refl ltac:(lia) ltac:(split; [unfold Qle | unfold Qlt]; simpl; lia))
    as (n & m & Hn & Hm & [_ Hup] & _).
  exists n, m. repeat split; assumption.
Defined.

(** X3.  With [intervalSeconds] zero the division is by zero and the
    cursor is never a number: it is [NaN] at the epoch, [Infinity] after it
    and [-Infinity] before it.  A client that sends this cursor back
    collides, and is answered [NaN], whatever the draw. *)
Theorem zero_interval_cursor
    (now : Z) (random : Q) (options : CursorOptions) (epochMs : Z) :
  intervalSeconds options = Some 0 ->
  getTime (default DEFAULT_CURSOR_EPOCH (epoch options)) = epochMs ->
  calculateCursor now options
  = (if now =? epochMs then "NaN" else if epochMs <? now then "Infinity" else "-Infinity") /\
  generateResponseCursor now random (Some (calculateCursor now options)) options = "NaN".
Proof.
  intros Hi He.
  assert (calculateCursor now options
          = (if now =? epochMs then "NaN"
             else if epochMs <? now then "Infinity" else "-Infinity")) as Hc.
  { unfold calculateCursor, Math_floor_div, div_by_zero. rewrite Hi, He. simpl.
    destruct (Z.eqb_spec (now - epochMs) 0), (Z.eqb_spec now epochMs); try lia;
      [reflexivity |].
    destruct (Z.ltb_spec 0 (now - epochMs)), (Z.ltb_spec epochMs now); try lia;
      reflexivity. }
  split; [exact Hc |].
  unfold generateResponseCursor. rewrite Hc.
  unfold handleCursorCollision, Math_ceil_div. rewrite Hi. simpl default.
  destruct (now =? epochMs); [| destruct (epochMs <? now)];
    cbn; unfold div_by_zero;
    destruct (jitterSeconds random =? 0); try reflexivity;
    destruct (0 <? jitterSeconds random); reflexivity.
Qed.

Lemma zero_interval_cursor_witness :
  calculateCursor 1766102400001 (mkCursorOptions (Some 0) None) = "Infinity".
Proof.
  apply (zero_interval_cursor 1766102400001 (1 # 2) (mkCursorOptions (Some 0) None)
           1766102400000 eq_refl eq_refl).
Defined.

End CursorMore.

(** ** More on the Go chunk iterator *)

Section ChunkIteratorMore.
Import Go Trace.

Lemma handle_response_sent (resp : Response) (it : ChunkIterator)
    (requests : list Request) :
  sent (handle_response resp it requests) = requests.
Proof.
  unfold handle_response.
  repeat match goal with
         | |- context [if ?b then _ else _] => destruct b; simpl
         | |- context [match Body resp with _ => _ end] => destruct (Body resp); simpl
         end; reflexivity.
Qed.

Lemma handle_response_live (resp : Response) (it : ChunkIterator)
    (requests : list Request) :
  live it <> LiveModeNone ->
  doneOnce it = false ->
  live (after (handle_response resp it requests)) = live it /\
  doneOnce (after (handle_response resp it requests)) = false /\
  err (handle_response resp it requests) <> Some Done.
Proof.
  intros Hl Hd. unfold handle_response.
  destruct (StatusCode resp =? StatusOK).
  { destruct (Body resp); simpl; [repeat split; congruence |].
    destruct (String.eqb_spec (live it) LiveModeNone) as [E|_]; [contradiction |].
    rewrite andb_false_r. simpl. repeat split; congruence. }
  destruct (StatusCode resp =? StatusNoContent).
  { repeat match goal with
           | |- context [if negb ?b then _ else _] => destruct b; simpl
           end;
      (destruct (String.eqb_spec (live it) LiveModeNone) as [E|_]; [contradiction |]);
      simpl; repeat split; congruence. }
  repeat match goal with
         | |- context [if ?b then _ else _] => destruct b; simpl
         end; repeat split; congruence.
Qed.

Lemma Next_live (world : RoundTrip) (it : ChunkIterator) :
  live it <> LiveModeNone ->
  doneOnce it = false ->
  live (after (Next world it)) = live it /\
  doneOnce (after (Next world it)) = false /\
  err (Next world it) <> Some Done.
Proof.
  intros Hl Hd. unfold Next. rewrite Hd.
  destruct (closed it); simpl; [repeat split; congruence |].
  destruct (ctx_done it); simpl; [repeat split; congruence |].
  destruct world as [e|e [|]|resp]; simpl; try (repeat split; congruence).
  apply handle_response_live; assumption.
Qed.

(** X4.  An iterator in a live mode (any mode but [LiveModeNone]) that is
    not done never becomes done: whatever is called on it and whatever the
    server answers, no call of [Next] returns the [Done] sentinel. *)
Theorem live_iterator_never_done (cs : list Call) (it : ChunkIterator) :
  live it <> LiveModeNone ->
  doneOnce it = false ->
  forallb (fun o => negb (returned_Done o)) (fst (calls cs it)) = true /\
  doneOnce (after_calls cs it) = false.
Proof.
  unfold after_calls. revert it.
  induction cs as [|c cs IH]; intros it Hl Hd; simpl; [split; [reflexivity | exact Hd] |].
  assert (live (snd (call c it)) = live it /\ doneOnce (snd (call c it)) = false /\
          returned_Done (fst (call c it)) = false) as (Hl' & Hd' & Ho).
  { destruct c as [world| |]; simpl.
    - destruct (Next_live world it Hl Hd) as (H1 & H2 & H3).
      repeat split; try assumption.
      destruct (err (Next world it)) as [[]|]; try reflexivity. congruence.
    - unfold Close. destruct (closed it); simpl; repeat split; assumption.
    - repeat split; assumption. }
  destruct (call c it) as [o it'] eqn:E; simpl in *.
  destruct (IH it' ltac:(congruence) Hd') as [IH1 IH2].
  destruct (calls cs it') as [os it''] eqn:E'; simpl in *.
  rewrite Ho, IH1. split; [reflexivity | exact IH2].
Qed.

Lemma live_iterator_never_done_witness :
  doneOnce (after_calls [CallNext (DoResponds response_no_content);
                         CallNext (DoResponds response_up_to_date)]
              (new_iterator "http://localhost/v1/stream/s1" "-1" LiveModeLongPoll ∅))
  = false.
Proof.
  apply (live_iterator_never_done
           [CallNext (DoResponds response_no_content);
            CallNext (DoResponds response_up_to_date)]
           (new_iterator "http://localhost/v1/stream/s1" "-1" LiveModeLongPoll ∅)).
  - discriminate.
  - reflexivity.
Defined.

(** The requests of one call of [Next]. *)
Lemma Next_sent (world : RoundTrip) (it : ChunkIterator) :
  sent (Next world it)
  = if negb (closed it) && negb (doneOnce it) && negb (ctx_done it)
       && negb (is_NewRequestFails world)
    then [request_of it]
    else [].
Proof.
  unfold Next, request_of.
  destruct (closed it), (doneOnce it), (ctx_done it); simpl; try reflexivity.
  destruct world as [e|e [|]|resp]; simpl; try reflexivity.
  apply handle_response_sent.
Qed.

(** X5.  [Next] hands at most one request to the HTTP client, and one
    exactly when the iterator is open, not done, its context is not cancelled
    and the request can be built, whatever the answer then is; the request
    carries the stream URL, the iterator's current offset, live mode and
    cursor, and the custom headers. *)
Theorem Next_sends_one_request (world : RoundTrip) (it : ChunkIterator) :
  (sent (Next world it) = [] \/
   sent (Next world it)
   = [mkRequest (stream_url it) (offset it) (live it) (cursor it) (headers it)]) /\
  (sent (Next world it) <> [] <->
   closed it = false /\ doneOnce it = false /\ ctx_done it = false /\
   is_NewRequestFails world = false).
Proof.
  rewrite Next_sent. unfold request_of.
  destruct (closed it), (doneOnce it), (ctx_done it), (is_NewRequestFails world);
    simpl; (split; [auto | split; [intros H; try congruence; auto |
                                   intros (?&?&?&?); congruence]]).
Qed.

(** X6.  A 304 response is no error and ends nothing: [Next] returns an
    empty chunk at the iterator's current offset, leaves the offset, the
    up-to-date flag and the done mark as they are, and takes over the cursor
    of the response only if it is not empty.  The next request is sent from
    the same offset. *)
Theorem Next_304_keeps_position (resp resp' : Response) (it : ChunkIterator) :
  closed it = false ->
  doneOnce it = false ->
  ctx_done it = false ->
  StatusCode resp = 304 ->
  err (Next (DoResponds resp) it) = None /\
  chunk (Next (DoResponds resp) it)
  = Some (mkChunk (offset it) None (it_UpToDate it)
            (cursor (after (Next (DoResponds resp) it))) "") /\
  cursor (after (Next (DoResponds resp) it))
  = (if String.eqb (Header_Get (Header resp) headerStreamCursor) ""
     then cursor it else Header_Get (Header resp) headerStreamCursor) /\
  offset (after (Next (DoResponds resp) it)) = offset it /\
  it_Offset (after (Next (DoResponds resp) it)) = it_Offset it /\
  it_UpToDate (after (Next (DoResponds resp) it)) = it_UpToDate it /\
  doneOnce (after (Next (DoResponds resp) it)) = false /\
  sent (Next (DoResponds resp') (after (Next (DoResponds resp) it)))
  = [mkRequest (stream_url it) (offset it) (live it)
       (cursor (after (Next (DoResponds resp) it))) (headers it)].
Proof.
  intros Hc Hd Hx Hs. rewrite Next_sent.
  unfold Next, request_of. rewrite Hc, Hd, Hx.
  unfold handle_response. rewrite Hs. simpl.
  destruct (String.eqb (Header_Get (Header resp) headerStreamCursor) ""); simpl;
    rewrite ?Hc, ?Hd, ?Hx; simpl; repeat split; reflexivity.
Qed.

Lemma Next_304_keeps_position_witness :
  offset (after (Next (DoResponds (mkResponse 304 ∅ (inr "")))
                   (new_iterator "http://localhost/v1/stream/s1"
                      "0000000000000003_0000000000000142" LiveModeNone ∅)))
  = "0000000000000003_0000000000000142".
Proof.
  apply (Next_304_keeps_position (mkResponse 304 ∅ (inr "")) response_no_content
           (new_iterator "http://localhost/v1/stream/s1"
              "0000000000000003_0000000000000142" LiveModeNone ∅)
           eq_refl eq_refl eq_refl eq_refl).
Defined.

(** X7.  A 200 response whose body can be read gives a chunk with that
    body and with the header values of the response, each the empty string
    when the header is missing; the iterator's offset, cursor and up-to-date
    flag become those of the chunk, also when they are empty.  Unless that
    made the iterator done, the request of the next call carries the chunk's
    [NextOffset] and [Cursor]. *)
Theorem Next_200_chunk_is_position
    (resp : Response) (data : string) (world : RoundTrip) (it : ChunkIterator) :
  closed it = false ->
  doneOnce it = false ->
  ctx_done it = false ->
  StatusCode resp = 200 ->
  Body resp = inr data ->
  exists c : Chunk,
    chunk (Next (DoResponds resp) it) = Some c /\
    err (Next (DoResponds resp) it) = None /\
    c = mkChunk (Header_Get (Header resp) headerStreamOffset) (Some data)
          (String.eqb (Header_Get (Header resp) headerStreamUpToDate) "true")
          (Header_Get (Header resp) headerStreamCursor)
          (Header_Get (Header resp) headerETag) /\
    offset (after (Next (DoResponds resp) it)) = NextOffset c /\
    it_Offset (after (Next (DoResponds resp) it)) = NextOffset c /\
    cursor (after (Next (DoResponds resp) it)) = Cursor c /\
    it_Cursor (after (Next (DoResponds resp) it)) = Cursor c /\
    it_UpToDate (after (Next (DoResponds resp) it)) = UpToDate c /\
    doneOnce (after (Next (DoResponds resp) it))
    = UpToDate c && String.eqb (live it) LiveModeNone /\
    (doneOnce (after (Next (DoResponds resp) it)) = false ->
     is_NewRequestFails world = false ->
     sent (Next world (after (Next (DoResponds resp) it)))
     = [mkRequest (stream_url it) (NextOffset c) (live it) (Cursor c) (headers it)]).
Proof.
  intros Hc Hd Hx Hs Hb. eexists. rewrite Next_sent.
  unfold Next, request_of. rewrite Hc, Hd, Hx.
  unfold handle_response. rewrite Hs, Hb. simpl.
  split; [reflexivity |].
  destruct (String.eqb (Header_Get (Header resp) headerStreamUpToDate) "true");
    destruct (String.eqb (live it) LiveModeNone); simpl;
    rewrite ?Hc, ?Hd, ?Hx; simpl; repeat split; try reflexivity;
    intros H1 H2; try discriminate; rewrite H2; reflexivity.
Qed.

Lemma Next_200_chunk_is_position_witness :
  exists c : Chunk,
    chunk (Next (DoResponds response_up_to_date)
             (new_iterator "http://localhost/v1/stream/s1" "-1" LiveModeLongPoll ∅))
    = Some c /\
    NextOffset c = "0000000000000001_0000000000000010".
Proof.
  destruct (Next_200_chunk_is_position response_up_to_date "hello"
              (DoResponds response_no_content)
              (new_iterator "http://localhost/v1/stream/s1" "-1" LiveModeLongPoll ∅)
              eq_refl eq_refl eq_refl eq_refl eq_refl) as (c & Hc & _ & Heq & _).
  exists c. split; [exact Hc |]. rewrite Heq. reflexivity.
Defined.

(** X8.  A call of [Next] that returns an error other than [Done] returns
    no chunk and leaves the position of the iterator as it was: the offset,
    the cursor, the up-to-date flag, and the closed and done marks.  So after
    a 404, a 410, another error status, a failed round trip or an unreadable
    body, the same request can be tried again. *)
Theorem Next_error_keeps_position (world : RoundTrip) (it : ChunkIterator) (e : error) :
  err (Next world it) = Some e ->
  e <> Done ->
  chunk (Next world it) = None /\
  offset (after (Next world it)) = offset it /\
  cursor (after (Next world it)) = cursor it /\
  it_Offset (after (Next world it)) = it_Offset it /\
  it_Cursor (after (Next world it)) = it_Cursor it /\
  it_UpToDate (after (Next world it)) = it_UpToDate it /\
  closed (after (Next world it)) = closed it /\
  doneOnce (after (Next world it)) = doneOnce it.
Proof.
  unfold Next.
  destruct (closed it) eqn:Hc; simpl; [intros; repeat split; auto |].
  destruct (doneOnce it) eqn:Hd; simpl; [intros; repeat split; auto |].
  destruct (ctx_done it) eqn:Hx; simpl; [intros; repeat split; auto |].
  destruct world as [e'|e' [|]|resp]; simpl; try solve [intros; repeat split; auto].
  unfold handle_response.
  repeat match goal with
         | |- context [if ?b then _ else _] => destruct b; simpl
         | |- context [match Body resp with _ => _ end] => destruct (Body resp); simpl
         end;
    intros H Hne; try discriminate; try congruence; repeat split; auto.
Qed.

Lemma Next_error_keeps_position_witness :
  offset (after (Next (DoResponds (mkResponse 404 ∅ (inr "")))
                   (new_iterator "http://localhost/v1/stream/s1"
                      "0000000000000003_0000000000000142" LiveModeNone ∅)))
  = "0000000000000003_0000000000000142".
Proof.
  apply (Next_error_keeps_position (DoResponds (mkResponse 404 ∅ (inr "")))
           (new_iterator "http://localhost/v1/stream/s1"
              "0000000000000003_0000000000000142" LiveModeNone ∅)
           (newStreamError "read" "http://localhost/v1/stream/s1" 404 ErrStreamNotFound)
           eq_refl).
  discriminate.
Defined.

Lemma call_cancelled (c : Call) (it : ChunkIterator) :
  ctx_done it = true ->
  doneOnce it = false ->
  ctx_done (snd (call c it)) = true /\ doneOnce (snd (call c it)) = false.
Proof.
  intros Hx Hd. destruct c as [world| |]; simpl.
  - unfold Next. rewrite Hd, Hx. destruct (closed it); simpl; auto.
  - unfold Close. destruct (closed it); simpl; auto.
  - auto.
Qed.

Lemma after_calls_cancelled (cs : list Call) (it : ChunkIterator) :
  ctx_done it = true ->
  doneOnce it = false ->
  ctx_done (after_calls cs it) = true /\ doneOnce (after_calls cs it) = false.
Proof.
  unfold after_calls. revert it.
  induction cs as [|c cs IH]; intros it Hx Hd; simpl; [auto |].
  destruct (call_cancelled c it Hx Hd) as [Hx' Hd'].
  destruct (call c it) as [o it'] eqn:E; simpl in *.
  specialize (IH it' Hx' Hd').
  destruct (calls cs it') as [os it''] eqn:E'; simpl in *. exact IH.
Qed.

(** X9.  Once the context of an open iterator that is not done is
    cancelled, no later call of [Next] sends a request or returns a chunk:
    it returns the context's error, and [ErrAlreadyClosed] once [Close] has
    been called. *)
Theorem Next_after_context_cancelled
    (it : ChunkIterator) (cs : list Call) (world : RoundTrip) :
  closed it = false ->
  doneOnce it = false ->
  ctx_done it = true ->
  sent (Next world (after_calls cs it)) = [] /\
  chunk (Next world (after_calls cs it)) = None /\
  err (Next world (after_calls cs it))
  = Some (if existsb is_CallClose cs then ErrAlreadyClosed else ctx_Err).
Proof.
  intros Hc Hd Hx.
  destruct (after_calls_cancelled cs it Hx Hd) as [Hx' Hd'].
  destruct (after_calls_flags cs it) as [Hc' _]. rewrite Hc in Hc'. simpl in Hc'.
  unfold Next. rewrite Hc', Hd', Hx'.
  destruct (existsb is_CallClose cs); repeat split.
Qed.

Lemma Next_after_context_cancelled_witness :
  err (Next (DoResponds response_up_to_date)
         (after_calls [CallNext (DoResponds response_up_to_date)]
            (snd (call CancelContext
                    (new_iterator "http://localhost/v1/stream/s1" "-1"
                       LiveModeLongPoll ∅)))))
  = Some ctx_Err.
Proof.
  apply (Next_after_context_cancelled
           (snd (call CancelContext
                   (new_iterator "http://localhost/v1/stream/s1" "-1"
                      LiveModeLongPoll ∅)))
           [CallNext (DoResponds response_up_to_date)]
           (DoResponds response_up_to_date) eq_refl eq_refl eq_refl).
Defined.

Lemma call_mirror (c : Call) (it : ChunkIterator) :
  it_Offset it = offset it ->
  it_Cursor it = cursor it ->
  it_Offset (snd (call c it)) = offset (snd (call c it)) /\
  it_Cursor (snd (call c it)) = cursor (snd (call c it)).
Proof.
  intros Ho Hcu. destruct c as [world| |]; simpl.
  - unfold Next.
    destruct (closed it); simpl; [auto |].
    destruct (doneOnce it); simpl; [auto |].
    destruct (ctx_done it); simpl; [auto |].
    destruct world as [e|e [|]|resp]; simpl; auto.
    unfold handle_response.
    repeat match goal with
           | |- context [if ?b then _ else _] => destruct b; simpl
           | |- context [match Body resp with _ => _ end] => destruct (Body resp); simpl
           end; auto.
  - unfold Close. destruct (closed it); simpl; auto.
  - auto.
Qed.

(** X10.  The public fields [Offset] and [Cursor] of an iterator mirror the
    internal offset and cursor that the next request is built from: if they
    agree, they agree after any sequence of calls. *)
Theorem public_position_mirrors_internal (cs : list Call) (it : ChunkIterator) :
  it_Offset it = offset it ->
  it_Cursor it = cursor it ->
  it_Offset (after_calls cs it) = offset (after_calls cs it) /\
  it_Cursor (after_calls cs it) = cursor (after_calls cs it).
Proof.
  unfold after_calls. revert it.
  induction cs as [|c cs IH]; intros it Ho Hcu; simpl; [auto |].
  destruct (call_mirror c it Ho Hcu) as [Ho' Hcu'].
  destruct (call c it) as [o it'] eqn:E; simpl in *.
  specialize (IH it' Ho' Hcu').
  destruct (calls cs it') as [os it''] eqn:E'; simpl in *. exact IH.
Qed.

Lemma public_position_mirrors_internal_witness :
  it_Offset (after_calls [CallNext (DoResponds response_up_to_date); CallClose]
               (new_iterator "http://localhost/v1/stream/s1" "-1" LiveModeLongPoll ∅))
  = offset (after_calls [CallNext (DoResponds response_up_to_date); CallClose]
              (new_iterator "http://localhost/v1/stream/s1" "-1" LiveModeLongPoll ∅)).
Proof.
  apply (public_position_mirrors_internal
           [CallNext (DoResponds response_up_to_date); CallClose]
           (new_iterator "http://localhost/v1/stream/s1" "-1" LiveModeLongPoll ∅)
           eq_refl eq_refl).
Defined.

End ChunkIteratorMore.

(** ** More on the client's response stream *)

Section ResponseStreamMore.
Import Client ResponseStream Trace.

Ltac open_session s :=
  destruct s as [lv off cur utd stop sse ab cl fr fy st]; simpl in *.








(** A session that keeps fetching: the first response is out, the stream
    is readable, the session continues live, is not aborted, and is not an
    SSE session with a starter. *)
Lemma pull_fetching (r : Response) (s : Session) :
  firstResponseYielded s = true ->
  shouldContinueLive s = true ->
  aborted s = false ->
  (live s = live_sse -> has_startSSE s = false) ->
  pull (FetchedResponse r) s
  = (updateStateFromResponse r s, [FetchNext (offset s) (cursor s); Enqueue r]).
Proof.
  intros Hy Hc Ha Hsse. unfold pull, pull_try. rewrite Hy, Hc, Ha. simpl.
  assert (match live s with live_sse => has_startSSE s | _ => false end = false) as ->
    by (destruct (live s); auto).
  assert (shouldContinueLive (updateStateFromResponse r s) = true) as ->
    by (unfold shouldContinueLive in *; simpl; exact Hc).
  rewrite andb_false_r. reflexivity.
Qed.

(** X13.  In a session that keeps fetching, a pull calls [#fetchNext] with
    the session's current offset and cursor and hands the response over.  The
    session then stands at the offset and the cursor of that response, each
    kept from before when the header is missing or empty, and is up to date
    exactly when the response has a [Stream-Up-To-Date] header, whatever its
    value; the next pull fetches from that position. *)
Theorem pull_resumes_from_latest_position (r : Response) (fetched : Fetched) (s : Session) :
  firstResponseYielded s = true ->
  shouldContinueLive s = true ->
  aborted s = false ->
  (live s = live_sse -> has_startSSE s = false) ->
  snd (pull (FetchedResponse r) s) = [FetchNext (offset s) (cursor s); Enqueue r] /\
  offset (fst (pull (FetchedResponse r) s))
  = (match headers r !! STREAM_OFFSET_HEADER with
     | Some v => if String.eqb v "" then offset s else v
     | None => offset s
     end) /\
  cursor (fst (pull (FetchedResponse r) s))
  = (match headers r !! STREAM_CURSOR_HEADER with
     | Some v => if String.eqb v "" then cursor s else Some v
     | None => cursor s
     end) /\
  (upToDate (fst (pull (FetchedResponse r) s)) = true
   <-> is_Some (headers r !! STREAM_UP_TO_DATE_HEADER)) /\
  exists rest,
    snd (pull fetched (fst (pull (FetchedResponse r) s)))
    = FetchNext (offset (fst (pull (FetchedResponse r) s)))
        (cursor (fst (pull (FetchedResponse r) s))) :: rest.
Proof.
  intros Hy Hc Ha Hsse. rewrite (pull_fetching r s Hy Hc Ha Hsse). simpl.
  split; [reflexivity |].
  split; [destruct (headers r !! STREAM_OFFSET_HEADER) as [v|]; simpl;
          [destruct (String.eqb v "") |]; reflexivity |].
  split; [destruct (headers r !! STREAM_CURSOR_HEADER) as [v|]; simpl;
          [destruct (String.eqb v "") |]; reflexivity |].
  split; [apply bool_decide_eq_true |].
  destruct fetched as [r'|err' ab'].
  - rewrite pull_fetching; simpl; auto. eexists; reflexivity.
  - unfold pull, pull_try. simpl. rewrite Hy.
    assert (shouldContinueLive (updateStateFromResponse r s) = true) as ->
      by (unfold shouldContinueLive in *; simpl; exact Hc).
    simpl. rewrite Ha.
    assert (match live s with live_sse => has_startSSE s | _ => false end = false) as ->
      by (destruct (live s); auto).
    destruct ab'; simpl; [| rewrite Ha]; eexists; reflexivity.
Qed.

Lemma pull_resumes_from_latest_position_witness :
  offset (fst (pull (FetchedResponse
                       (mkResponse 200
                          (<[STREAM_OFFSET_HEADER := "0000000000000002_0000000000000020"]> ∅)))
                 (fst (pull (FetchedResponse (mkResponse 200 ∅))
                         (new_session live_long_poll false
                            "0000000000000001_0000000000000010" (Some "7") true
                            (mkResponse 200 ∅))))))
  = "0000000000000002_0000000000000020".
Proof.
  destruct (pull_resumes_from_latest_position
              (mkResponse 200
                 (<[STREAM_OFFSET_HEADER := "0000000000000002_0000000000000020"]> ∅))
              (FetchedResponse (mkResponse 204 ∅))
              (fst (pull (FetchedResponse (mkResponse 200 ∅))
                      (new_session live_long_poll false
                         "0000000000000001_0000000000000010" (Some "7") true
                         (mkResponse 200 ∅))))
              eq_refl eq_refl eq_refl ltac:(discriminate))
    as (_ & Hoffset & _).
  rewrite Hoffset. vm_compute. reflexivity.
Defined.

(** X14.  A session that keeps fetching never ends by itself: as long as
    the fetches succeed, every pull makes one fetch, every fetched response is
    handed to the consumer, in order, and the stream is neither closed nor
    errored, also when the responses are up to date. *)
Theorem live_session_delivers_every_response (rs : list Response) (s : Session) :
  stream s = Readable ->
  firstResponseYielded s = true ->
  shouldContinueLive s = true ->
  aborted s = false ->
  (live s = live_sse -> has_startSSE s = false) ->
  enqueued (run (map (fun r => OpPull (FetchedResponse r)) rs) s) = rs /\
  length (fetched_from (run (map (fun r => OpPull (FetchedResponse r)) rs) s))
  = length rs /\
  forallb (fun e => negb (ends_stream e))
    (run (map (fun r => OpPull (FetchedResponse r)) rs) s) = true.
Proof.
  revert s. induction rs as [|r rs IH]; intros s Hst Hy Hc Ha Hsse; simpl;
    [repeat split |].
  rewrite Hst, (pull_fetching r s Hy Hc Ha Hsse).
  destruct (IH (updateStateFromResponse r s)) as (IH1 & IH2 & IH3); try assumption.
  simpl. unfold enqueued, fetched_from in *. simpl.
  rewrite IH1, IH2, IH3. repeat split.
Qed.

Lemma live_session_delivers_every_response_witness :
  enqueued
    (run (map (fun r => OpPull (FetchedResponse r))
            [mkResponse 204 ∅; mkResponse 200 ∅])
       (fst (pull (FetchedResponse (mkResponse 200 ∅))
               (new_session live_long_poll false "0000000000000001_0000000000000010"
                  (Some "7") true (mkResponse 200 ∅)))))
  = [mkResponse 204 ∅; mkResponse 200 ∅].
Proof.
  apply (live_session_delivers_every_response
           [mkResponse 204 ∅; mkResponse 200 ∅]
           (fst (pull (FetchedResponse (mkResponse 200 ∅))
                   (new_session live_long_poll false "0000000000000001_0000000000000010"
                      (Some "7") true (mkResponse 200 ∅))))
           eq_refl eq_refl eq_refl eq_refl ltac:(discriminate)).
Defined.

Lemma step_settled (op : Op) (s : Session) :
  (stream s <> Readable -> closed s <> Pending) ->
  (stream (fst (step op s)) <> Readable -> closed (fst (step op s)) <> Pending) /\
  (closed s <> Pending -> closed (fst (step op s)) = closed s).
Proof.
  intros Hinv. open_session s.
  destruct op as [fetched| |]; simpl.
  - destruct st; simpl; try (split; [exact Hinv | reflexivity]).
    unfold pull, pull_try, shouldContinueLive. simpl.
    destruct fy, utd, stop, lv, sse, ab, cl; simpl;
      try destruct fetched as [r | err' [|]]; simpl;
      repeat match goal with
             | |- context [if ?b then _ else _] => destruct b; simpl
             end;
      split; congruence.
  - unfold cancel, markClosed. simpl. destruct cl; simpl; split; congruence.
  - split; [exact Hinv | reflexivity].
Qed.

(** X19.  The [closed] promise follows the stream: whenever the response
    stream has been closed or errored, [closed] is settled, and once [closed]
    is settled nothing changes its outcome, whatever the consumer does
    afterwards. *)
Theorem closed_settles_with_stream (ops : list Op) (s : Session) :
  (stream s <> Readable -> closed s <> Pending) ->
  (stream (run_to ops s) <> Readable -> closed (run_to ops s) <> Pending) /\
  (closed s <> Pending -> closed (run_to ops s) = closed s).
Proof.
  revert s. induction ops as [|op ops IH]; intros s Hinv; simpl;
    [split; [exact Hinv | reflexivity] |].
  destruct (step_settled op s Hinv) as [Hinv' Hkeep].
  destruct (IH (fst (step op s)) Hinv') as [IH1 IH2].
  split; [exact IH1 |].
  intros Hs. rewrite IH2 by (rewrite (Hkeep Hs); exact Hs). apply Hkeep. exact Hs.
Qed.

Lemma closed_settles_with_stream_witness :
  closed (run_to [OpPull (FetchedResponse (mkResponse 200 ∅));
                  OpPull (FetchedResponse (mkResponse 200 ∅))]
            (cancel (new_session live_long_poll false
                       "0000000000000001_0000000000000010" None true
                       (mkResponse 200 ∅))))
  = Resolved.
Proof.
  apply (closed_settles_with_stream
           [OpPull (FetchedResponse (mkResponse 200 ∅));
            OpPull (FetchedResponse (mkResponse 200 ∅))]
           (cancel (new_session live_long_poll false
                      "0000000000000001_0000000000000010" None true
                      (mkResponse 200 ∅)))).
  - intros _. discriminate.
  - discriminate.
Defined.

End ResponseStreamMore.

(** ** Resolving headers and params *)

Section ClientUtilsMore.
Import ResponseStream ClientUtils.

Lemma lookup_assign (key value k : string) (resolved : gmap string string) :
  assign key value resolved !! k
  = if decide (key = k /\ key <> "__proto__") then Some value else resolved !! k.
Proof.
  unfold assign. destruct (String.eqb_spec key "__proto__") as [E|E].
  - destruct (decide (key = k /\ key <> "__proto__")) as [[_ H]|_];
      [contradiction | reflexivity].
  - destruct (decide (key = k /\ key <> "__proto__")) as [[-> _]|H].
    + apply lookup_insert_eq.
    + apply lookup_insert_ne. intros ->. apply H. split; [reflexivity | exact E].
Qed.

Lemma resolveHeaders_loop_lookup (entries : list (string * MaybeFunction))
    (resolved m : gmap string string) :
  NoDup entries.*1 ->
  resolveHeaders_loop entries resolved = inr m ->
  forall k v,
    m !! k = Some v <->
    (k <> "__proto__" /\
     exists value, (k, value) ∈ entries /\ resolveValue value = inr v) \/
    ((k = "__proto__" \/ (k ∉ entries.*1)) /\ resolved !! k = Some v).
Proof.
  revert resolved. induction entries as [|[key value] entries IH];
    intros resolved Hnd Hm k v; simpl in *.
  - injection Hm as <-. split.
    + intros H. right. split; [right; apply not_elem_of_nil | exact H].
    + intros [(_ & value & Hin & _) | [_ H]]; [| exact H].
      apply elem_of_nil in Hin. contradiction.
  - apply NoDup_cons in Hnd as [Hkey Hnd].
    assert (forall w, resolveValue value = inr w ->
                      resolveHeaders_loop entries (assign key w resolved) = inr m ->
                      m !! k = Some v <->
                      (k <> "__proto__" /\
                       exists value', (k, value') ∈ (key, value) :: entries /\
                                      resolveValue value' = inr v) \/
                      ((k = "__proto__" \/ (k ∉ key :: entries.*1)) /\
                       resolved !! k = Some v))
      as Hstep.
    { intros w Hw Hloop. rewrite (IH _ Hnd Hloop k v). rewrite lookup_assign. split.
      - intros [(Hp & value' & Hin & Hv) | [Hnin Hl]].
        + left. split; [exact Hp |]. exists value'.
          split; [apply elem_of_cons; right; exact Hin | exact Hv].
        + destruct (decide (key = k /\ key <> "__proto__")) as [[-> Hp]|Hne].
          * injection Hl as ->. left. split; [exact Hp |]. exists value.
            split; [apply elem_of_cons; left; reflexivity | exact Hw].
          * right. split; [| exact Hl].
            destruct Hnin as [Hp | Hnin]; [left; exact Hp |].
            destruct (decide (k = "__proto__")) as [Hp | Hp]; [left; exact Hp |].
            right. rewrite not_elem_of_cons. split; [| exact Hnin].
            intros ->. apply Hne. split; [reflexivity | exact Hp].
      - intros [(Hp & value' & Hin & Hv) | [Hnin Hl]].
        + apply elem_of_cons in Hin as [Heq | Hin].
          * injection Heq as Hk1 Hv1. subst k value'.
            right. split; [right; exact Hkey |].
            destruct (decide (key = key /\ key <> "__proto__")) as [_|Hne];
              [congruence | exfalso; apply Hne; split; [reflexivity | exact Hp]].
          * left. split; [exact Hp |]. exists value'. split; assumption.
        + right.
          destruct (decide (key = k /\ key <> "__proto__")) as [[-> Hp]|Hne].
          * exfalso. destruct Hnin as [Hp' | Hnin]; [contradiction |].
            apply Hnin. apply elem_of_cons. left. reflexivity.
          * split; [| exact Hl]. destruct Hnin as [Hp | Hnin]; [left; exact Hp |].
            right. apply not_elem_of_cons in Hnin as [_ Hnin]. exact Hnin. }
    destruct value as [w | [thrown | w]]; [| discriminate |];
      apply (Hstep w); [reflexivity | exact Hm | reflexivity | exact Hm].
Qed.

(** X15.  When [resolveHeaders] succeeds on headers whose keys are distinct
    (as the entries of an object are), the resolved record has the keys of
    the headers, except [__proto__], and no others: a key other than
    [__proto__] is bound to [v] exactly when the headers bind it to the
    string [v] or to a function that returned [v], and [__proto__] is never
    bound, since the assignment to it stores nothing. *)
Theorem resolveHeaders_lookup (entries : list (string * MaybeFunction))
    (m : gmap string string) (k v : string) :
  NoDup entries.*1 ->
  resolveHeaders (Some entries) = inr m ->
  (m !! k = Some v <->
   k <> "__proto__" /\
   exists value, (k, value) ∈ entries /\ resolveValue value = inr v) /\
  m !! "__proto__" = None.
Proof.
  intros Hnd Hm. unfold resolveHeaders in Hm. split.
  - rewrite (resolveHeaders_loop_lookup entries ∅ m Hnd Hm k v).
    split; [intros [H | [_ H]]; [exact H | rewrite lookup_empty in H; discriminate] |].
    intros H. left. exact H.
  - destruct (m !! "__proto__") as [w|] eqn:Hw; [exfalso | reflexivity].
    apply (resolveHeaders_loop_lookup entries ∅ m Hnd Hm) in Hw.
    destruct Hw as [[Hp _] | [_ Hw]]; [congruence | rewrite lookup_empty in Hw; discriminate].
Qed.

Lemma resolveHeaders_lookup_witness :
  exists value,
    (("Authorization", value) : string * MaybeFunction)
      ∈ [("__proto__", Plain "x");
         ("Accept", Plain "application/json");
         ("Authorization", Function (inr "Bearer t0"))] /\
    resolveValue value = inr "Bearer t0".
Proof.
  apply (proj1 (resolveHeaders_lookup
           [("__proto__", Plain "x");
            ("Accept", Plain "application/json");
            ("Authorization", Function (inr "Bearer t0"))]
           (<["Authorization" := "Bearer t0"]> (<["Accept" := "application/json"]> ∅))
           "Authorization" "Bearer t0"
           ltac:(apply (@bool_decide_unpack _ (NoDup_dec _)); vm_compute; exact I)
           eq_refl)).
  vm_compute. reflexivity.
Defined.

Lemma resolveHeaders_loop_app (pre post : list (string * MaybeFunction))
    (resolved : gmap string string) :
  forallb (fun entry => negb (throws (snd entry))) pre = true ->
  exists resolved',
    resolveHeaders_loop (pre ++ post)%list resolved = resolveHeaders_loop post resolved'.
Proof.
  revert resolved. induction pre as [|[key value] pre IH]; intros resolved H; simpl in *.
  - exists resolved. reflexivity.
  - apply andb_prop in H as [Hv Hpre].
    destruct value as [w | [thrown | w]]; simpl in Hv; try discriminate;
      apply IH; exact Hpre.
Qed.

(** X16.  [resolveHeaders] fails exactly when a header function fails: if
    no function throws or rejects it returns a record, and otherwise it
    rejects with what the first failing function, in the order of the
    entries, threw; without headers it returns the empty record. *)
Theorem resolveHeaders_rejects_with_first_failure
    (pre post : list (string * MaybeFunction)) (key : string) (thrown : Thrown) :
  resolveHeaders None = inr ∅ /\
  (forallb (fun entry => negb (throws (snd entry))) pre = true ->
   (exists m, resolveHeaders (Some pre) = inr m) /\
   resolveHeaders (Some (pre ++ (key, Function (inl thrown)) :: post)%list) = inl thrown).
Proof.
  split; [reflexivity |]. intros Hpre. unfold resolveHeaders. split.
  - destruct (resolveHeaders_loop_app pre [] ∅ Hpre) as [m Hm].
    rewrite app_nil_r in Hm. exists m. exact Hm.
  - destruct (resolveHeaders_loop_app pre ((key, Function (inl thrown)) :: post) ∅ Hpre)
      as [m Hm].
    rewrite Hm. reflexivity.
Qed.

Lemma resolveParams_loop_defined (entries : list (string * option MaybeFunction))
    (resolved : gmap string string) :
  resolveParams_loop entries resolved
  = resolveHeaders_loop (defined_entries entries) resolved.
Proof.
  revert resolved. induction entries as [|[key [value|]] entries IH];
    intros resolved; simpl; [reflexivity | |].
  - destruct value as [w | [thrown | w]]; [apply IH | reflexivity | apply IH].
  - apply IH.
Qed.

Lemma defined_entries_elem (entries : list (string * option MaybeFunction))
    (k : string) (value : MaybeFunction) :
  (k, value) ∈ defined_entries entries -> (k, Some value) ∈ entries.
Proof.
  induction entries as [|[key [value'|]] entries IH]; simpl; intros H.
  - apply elem_of_nil in H. contradiction.
  - apply elem_of_cons in H as [H | H]; apply elem_of_cons;
      [left; congruence | right; apply IH; exact H].
  - apply elem_of_cons. right. apply IH. exact H.
Qed.

Lemma defined_entries_NoDup (entries : list (string * option MaybeFunction)) :
  NoDup entries.*1 -> NoDup (defined_entries entries).*1.
Proof.
  induction entries as [|[key [value|]] entries IH]; simpl; intros Hnd.
  - constructor.
  - apply NoDup_cons in Hnd as [Hkey Hnd]. apply NoDup_cons. split; [| apply IH; exact Hnd].
    intros Hin. apply Hkey.
    apply list_elem_of_fmap in Hin as ([k' value'] & -> & Hin).
    apply defined_entries_elem in Hin.
    apply list_elem_of_fmap. exists (k', Some value'). split; [reflexivity | exact Hin].
  - apply NoDup_cons in Hnd as [_ Hnd]. apply IH. exact Hnd.
Qed.

Lemma NoDup_keys_unique {A : Type} (entries : list (string * A)) (k : string) (a b : A) :
  NoDup entries.*1 -> (k, a) ∈ entries -> (k, b) ∈ entries -> a = b.
Proof.
  induction entries as [|[key value] entries IH]; simpl; intros Hnd Ha Hb.
  - apply elem_of_nil in Ha. contradiction.
  - apply NoDup_cons in Hnd as [Hkey Hnd].
    apply elem_of_cons in Ha as [Ha | Ha]; apply elem_of_cons in Hb as [Hb | Hb].
    + congruence.
    + exfalso. apply Hkey. injection Ha as -> _.
      apply list_elem_of_fmap. exists (key, b). split; [reflexivity | exact Hb].
    + exfalso. apply Hkey. injection Hb as -> _.
      apply list_elem_of_fmap. exists (key, a). split; [reflexivity | exact Ha].
    + apply IH; assumption.
Qed.

(** X17.  [resolveParams] is [resolveHeaders] on the params whose value is
    not [undefined]: such params are skipped, and their functions play no
    part.  A key whose value is [undefined] is absent from the resolved
    record. *)
Theorem resolveParams_skips_undefined
    (entries : list (string * option MaybeFunction)) :
  resolveParams None = inr ∅ /\
  resolveParams (Some entries) = resolveHeaders (Some (defined_entries entries)) /\
  forall (m : gmap string string) (k : string),
    NoDup entries.*1 ->
    (k, None) ∈ entries ->
    resolveParams (Some entries) = inr m ->
    m !! k = None.
Proof.
  split; [reflexivity |].
  assert (resolveParams (Some entries) = resolveHeaders (Some (defined_entries entries)))
    as Heq by apply resolveParams_loop_defined.
  split; [exact Heq |].
  intros m k Hnd Hin Hm. rewrite Heq in Hm.
  destruct (m !! k) as [v|] eqn:Hk; [exfalso | reflexivity].
  apply (resolveHeaders_loop_lookup (defined_entries entries) ∅ m
           (defined_entries_NoDup entries Hnd) Hm) in Hk.
  destruct Hk as [(_ & value & Hv & _) | [_ Hk]];
    [| rewrite lookup_empty in Hk; discriminate].
  apply defined_entries_elem in Hv.
  pose proof (NoDup_keys_unique entries k _ _ Hnd Hin Hv). discriminate.
Qed.

End ClientUtilsMore.

(** ** The Go client: stream URLs *)

Section GoClientMore.
Import GoClient.

Lemma length_append (a b : string) :
  String.length (a ++ b) = (String.length a + String.length b)%nat.
Proof. induction a as [|c a IH]; simpl; [reflexivity | rewrite IH; reflexivity]. Qed.

Lemma substring_all (a : string) : substring 0 (String.length a) a = a.
Proof. induction a as [|c a IH]; simpl; [reflexivity | rewrite IH; reflexivity]. Qed.

Lemma substring_append_left (a b : string) :
  substring 0 (String.length a) (a ++ b) = a.
Proof.
  induction a as [|c a IH]; simpl; [destruct b; reflexivity | rewrite IH; reflexivity].
Qed.

Lemma substring_append_right (a b : string) (n : nat) :
  substring (String.length a) n (a ++ b) = substring 0 n b.
Proof. induction a as [|c a IH]; simpl; [reflexivity | exact IH]. Qed.

(** Trimming a suffix that was appended gives the string back. *)
Lemma TrimSuffix_append (b suffix : string) : TrimSuffix (b ++ suffix) suffix = b.
Proof.
  unfold TrimSuffix, HasSuffix. rewrite length_append.
  replace (String.length b + String.length suffix - String.length suffix)%nat
    with (String.length b) by lia.
  rewrite substring_append_right, substring_all, String.eqb_refl.
  destruct (Nat.leb_spec (String.length suffix) (String.length b + String.length suffix));
    [| lia].
  simpl. apply substring_append_left.
Qed.

(** [TrimSuffix] returns its argument or a string shorter by the suffix. *)
Lemma TrimSuffix_no_suffix (s suffix : string) :
  HasSuffix s suffix = false -> TrimSuffix s suffix = s.
Proof. intros H. unfold TrimSuffix. rewrite H. reflexivity. Qed.

(** X18.  The URL of the stream handle [Client.Stream(url)] of a new client.
    A [url] that starts with [http://] or [https://] is taken as it is,
    whatever the base URL.  Any other [url] is appended to the configured
    base URL, from which [NewClient] has removed one trailing slash, so that
    a base given with or without the slash gives the same URL; when the base
    is empty, or only a slash, the [url] is taken as it is. *)
Theorem Client_Stream_url
    (HTTPClient RetryPolicy : Type) (defaultHTTPClient : HTTPClient)
    (DefaultRetryPolicy : RetryPolicy)
    (opts : list (ClientOption HTTPClient RetryPolicy)) (u b : string) :
  (HasPrefix u "http://" = true \/ HasPrefix u "https://" = true ->
   url _ _ (Client_Stream _ _ (NewClient _ _ defaultHTTPClient DefaultRetryPolicy opts) u)
   = u) /\
  (HasPrefix u "http://" = false -> HasPrefix u "https://" = false ->
   (cfg_baseURL _ _ (apply_options _ _ opts) = b ++ "/" \/
    (cfg_baseURL _ _ (apply_options _ _ opts) = b /\ HasSuffix b "/" = false)) ->
   url _ _ (Client_Stream _ _ (NewClient _ _ defaultHTTPClient DefaultRetryPolicy opts) u)
   = if String.eqb b "" then u else b ++ u).
Proof.
  unfold Client_Stream, NewClient. simpl. split.
  - intros [-> | ->]; simpl; [reflexivity | rewrite andb_false_r; reflexivity].
  - intros -> -> [-> | [-> Hs]]; simpl.
    + rewrite TrimSuffix_append. destruct (String.eqb b ""); reflexivity.
    + rewrite TrimSuffix_no_suffix by exact Hs. destruct (String.eqb b ""); reflexivity.
Qed.

Lemma Client_Stream_url_witness :
  url _ _ (Client_Stream _ _
             (NewClient unit unit tt tt [option_baseURL "https://example.com/"])
             "/streams/my-stream")
  = "https://example.com/streams/my-stream".
Proof.
  apply (proj2 (Client_Stream_url unit unit tt tt [option_baseURL "https://example.com/"]
                  "/streams/my-stream" "https://example.com")
           eq_refl eq_refl (or_introl eq_refl)).
Defined.

End GoClientMore.
